(** * wahello: vector clocks, signed clock updates and partition-aware
      propagation (bft_protocol.go)

    A shallow embedding of the Go program [bft_protocol.go] and the
    properties of its natural-language specification.

    Conventions of the embedding:
    - [int64] timestamps are integers [Z]; the program only stores and
      compares them, so no wrap-around arithmetic is involved;
    - a Go [map[string]T] is a [gmap string T]; reading an absent key gives
      the zero value of [T];
    - [*Node] pointers are addresses into a heap of node objects, because
      the system registry and the callers alias the same nodes;
    - [range] over a map visits the entries in an unspecified order: the
      order is an explicit argument, constrained to be a permutation of the
      map's entries;
    - the cryptographic primitives of the Go standard library ([sha256.Sum256],
      [ecdsa.Sign]) are parameters of a section. *)

From Stdlib Require Import ZArith.
From Stdlib Require Import DecimalString Ascii.
From Stdlib Require DecimalPos DecimalZ.
From stdpp Require Import gmap strings.

Local Open Scope Z_scope.

(** ** Data model *)

(** [type VectorClock struct { Timestamps map[string]int64 }] *)
Record VectorClock := mkVectorClock {
  Timestamps : gmap string Z
}.

(** [type ClockUpdate struct { NodeID string; Timestamp int64; Signature string }] *)
Record ClockUpdate := mkClockUpdate {
  NodeID : string;
  Timestamp : Z;
  Signature : string
}.

Module VC.

(** [func NewVectorClock() *VectorClock] *)
Definition NewVectorClock : VectorClock := mkVectorClock ∅.

(** [func (vc *VectorClock) Update(nodeID string, timestamp int64)]:
    [vc.Timestamps[nodeID] = timestamp]. *)
Definition Update (vc : VectorClock) (nodeID : string) (timestamp : Z) : VectorClock :=
  mkVectorClock (<[nodeID := timestamp]> (Timestamps vc)).

(** [func (vc *VectorClock) GetTimestamp(nodeID string) int64]:
    [return vc.Timestamps[nodeID]], the zero value [0] for an absent key. *)
Definition GetTimestamp (vc : VectorClock) (nodeID : string) : Z :=
  default 0 (Timestamps vc !! nodeID).

(** [func (vc *VectorClock) Compare(other *VectorClock) int].

    The two [for ... range] loops visit the entries of a map in an order the
    language leaves unspecified, so each loop takes the visiting order as a
    list of entries. The locals [allEqual] and [maxTimestamp] are kept as in
    the source although no [return] reads them. *)
Inductive loop_result :=
  | Return (r : Z)
  | Fallthrough (maxTimestamp : Z).

(** First loop: [for nodeID, ts := range vc.Timestamps]. *)
Fixpoint Compare_first_loop (entries : list (string * Z)) (other : VectorClock)
    (maxTimestamp : Z) : loop_result :=
  match entries with
  | [] => Fallthrough maxTimestamp
  | (nodeID, ts) :: rest =>
      let otherTS := GetTimestamp other nodeID in
      if otherTS >? ts then Return (-1)
      else if otherTS <? ts then Return 1
      else Compare_first_loop rest other
             (if ts >? maxTimestamp then ts else maxTimestamp)
  end.

(** Second loop: [for nodeID, ts := range other.Timestamps], which only
    touches [maxTimestamp], and only for keys that [vc] does not have. *)
Fixpoint Compare_second_loop (entries : list (string * Z)) (vc : VectorClock)
    (maxTimestamp : Z) : Z :=
  match entries with
  | [] => maxTimestamp
  | (nodeID, ts) :: rest =>
      let exists_ := bool_decide (is_Some (Timestamps vc !! nodeID)) in
      Compare_second_loop rest vc
        (if negb exists_ then (if ts >? maxTimestamp then ts else maxTimestamp)
         else maxTimestamp)
  end.

Definition Compare_in_order (order1 order2 : list (string * Z))
    (vc other : VectorClock) : Z :=
  let allEqual := true in
  match Compare_first_loop order1 other 0 with
  | Return r => r
  | Fallthrough maxTimestamp =>
      let maxTimestamp := Compare_second_loop order2 vc maxTimestamp in
      0
  end.

(** A visiting order of a map: any arrangement of its entries. *)
Definition range_order (m : gmap string Z) (order : list (string * Z)) : Prop :=
  order ≡ₚ map_to_list m.

(** [Compare vc other r]: some run of [vc.Compare(other)] returns [r]. *)
Inductive Compare (vc other : VectorClock) : Z → Prop :=
  | Compare_run order1 order2 :
      range_order (Timestamps vc) order1 →
      range_order (Timestamps other) order2 →
      Compare vc other (Compare_in_order order1 order2 vc other).

(** One particular run, for evaluation: the entries in [map_to_list] order. *)
Definition Compare_exec (vc other : VectorClock) : Z :=
  Compare_in_order (map_to_list (Timestamps vc)) (map_to_list (Timestamps other))
    vc other.

End VC.

(** ** The comparison the specification describes

    The standard partial order on vector clocks, absent keys read as [0]. *)
Inductive Ordering := LESS | GREATER | EQUAL | CONCURRENT.

Module Std.

(** Every entry of [a] is at most the corresponding entry of [b]. *)
Definition vc_le (a b : VectorClock) : Prop :=
  ∀ k, VC.GetTimestamp a k ≤ VC.GetTimestamp b k.

(** The same, checked on the keys either clock holds: this is the form
    that can be decided by running over finitely many keys. *)
Definition vc_le_keys (a b : VectorClock) : Prop :=
  set_Forall (λ k, VC.GetTimestamp a k ≤ VC.GetTimestamp b k)
    (dom (Timestamps a) ∪ dom (Timestamps b)).

Definition vc_leb (a b : VectorClock) : bool := bool_decide (vc_le_keys a b).

(** Modelled on the specification's description of [compare]: [LESS] when
    every entry of [a] is at most that of [b] and one is strictly less,
    [GREATER] symmetrically, [EQUAL] when all entries match, [CONCURRENT]
    when neither dominates. *)
Definition compare (a b : VectorClock) : Ordering :=
  match vc_leb a b, vc_leb b a with
  | true, true => EQUAL
  | true, false => LESS
  | false, true => GREATER
  | false, false => CONCURRENT
  end.

End Std.

(** The source's reading of the integer result: "return 0 if equal, -1 if
    less, 1 if greater". *)
Definition ordering_of_result (r : Z) : option Ordering :=
  if decide (r = -1) then Some LESS
  else if decide (r = 0) then Some EQUAL
  else if decide (r = 1) then Some GREATER
  else None.

(** ** Identity and signing *)

(** [ecdsa.PublicKey]: a curve point; [ecdsa.PrivateKey]: the point and the
    secret scalar [D]. *)
Record ecdsa_PublicKey := mkPublicKey { X : Z; Y : Z }.
Record ecdsa_PrivateKey := mkPrivateKey { Public : ecdsa_PublicKey; D : Z }.

(** A Go call that returns [(T, error)]. *)
Inductive result (A : Type) :=
  | Ok (a : A)
  | Err (e : string).
Arguments Ok {A} a.
Arguments Err {A} e.

(** [fmt.Sprintf("%d", n)] for an [int64]. *)
Definition Sprintf_d (n : Z) : string := NilZero.string_of_int (Z.to_int n).

(** [Bytes] of a [big.Int]: the big-endian bytes of the absolute value, none
    for zero. *)
Fixpoint bytes_le (fuel : nat) (n : Z) : list Z :=
  match fuel with
  | O => []
  | S fuel' => if n =? 0 then [] else (n mod 256) :: bytes_le fuel' (n / 256)
  end.

Definition big_Int_Bytes (z : Z) : list Z :=
  rev (bytes_le (S (Z.to_nat (Z.log2 (Z.abs z)))) (Z.abs z)).

(** [hex.EncodeToString]: two lower-case digits per byte. *)
Definition hex_digit (d : Z) : string :=
  String.substring (Z.to_nat d) 1 "0123456789abcdef".

Definition hex_EncodeToString (bytes : list Z) : string :=
  fold_right (λ b acc, hex_digit (b / 16) +:+ hex_digit (b mod 16) +:+ acc) "" bytes.

(** The message both [SignClockUpdate] and [VerifyClockUpdate] build:
    [fmt.Sprintf("%s:%d", update.NodeID, update.Timestamp)]. *)
Definition signed_message (update : ClockUpdate) : string :=
  NodeID update +:+ ":" +:+ Sprintf_d (Timestamp update).

(** ** Nodes, the heap they live in, and the system

    [Node.VectorClock] is a pointer in the source; [NewNode] gives every
    node a clock of its own and nothing shares or reassigns it, so the clock
    is a field of the node object.  The [Lock] fields are not stored: the
    model is sequential, and the one place where a lock decides the outcome
    (a node delivering to itself while it holds its own lock) is handled in
    [PropagateClockUpdate]. *)
Record Node := mkNode {
  ID : string;
  Node_VectorClock : VectorClock;
  PrivateKey : ecdsa_PrivateKey;
  PublicKey : ecdsa_PublicKey;
  IsByzantine : bool;
  IsIsolated : bool;
  Neighbors : list string
}.

(** [Nodes] holds [*Node] pointers: addresses into the heap. *)
Record System := mkSystem {
  Nodes : gmap string positive;
  Leader : string;
  Partition : gmap string bool
}.

(** The node objects and what has been printed so far. *)
Record World := mkWorld {
  heap : gmap positive Node;
  stdout : list string
}.

(** How a call ends: it returns, it panics (a nil or dangling [*Node] is
    dereferenced), or it blocks for ever on a lock the caller already
    holds. *)
Inductive outcome (A : Type) :=
  | Returns (a : A)
  | Panics
  | Blocks.
Arguments Returns {A} a.
Arguments Panics {A}.
Arguments Blocks {A}.

Definition obind {A B} (m : outcome A) (k : A → outcome B) : outcome B :=
  match m with
  | Returns a => k a
  | Panics => Panics
  | Blocks => Blocks
  end.

Notation "'do' x <- m ; k" := (obind m (λ x, k))
  (at level 10, x name, m at level 100, k at level 200).
Notation "'do' ( x , y ) <- m ; k" := (obind m (λ xy, let '(x, y) := xy in k))
  (at level 10, x name, y name, m at level 100, k at level 200).

Definition deref (w : World) (p : positive) : outcome Node :=
  match heap w !! p with
  | Some n => Returns n
  | None => Panics
  end.

Definition store (w : World) (p : positive) (n : Node) : World :=
  mkWorld (<[p := n]> (heap w)) (stdout w).

Definition newline : string := String (Ascii.ascii_of_nat 10) EmptyString.

Module Sys.

(** [func NewSystem() *System] *)
Definition NewSystem : System := mkSystem ∅ "" ∅.

(** [func (s *System) AddNode(node *Node)]: [s.Nodes[node.ID] = node]. *)
Definition AddNode (s : System) (node : positive) (w : World) : outcome System :=
  do n <- deref w node;
  Returns (mkSystem (<[ID n := node]> (Nodes s)) (Leader s) (Partition s)).

(** [func (s *System) SetLeader(leaderID string)] *)
Definition SetLeader (s : System) (leaderID : string) : System :=
  mkSystem (Nodes s) leaderID (Partition s).

(** [func (s *System) GetLeader() string] *)
Definition GetLeader (s : System) : string := Leader s.

(** [func (s *System) IsPartitioned(nodeID string) bool]:
    [return s.Partition[nodeID]], [false] for an absent key. *)
Definition IsPartitioned (s : System) (nodeID : string) : bool :=
  default false (Partition s !! nodeID).

(** [func (s *System) SetPartition(nodeID string, isIsolated bool)] *)
Definition SetPartition (s : System) (nodeID : string) (isIsolated : bool) : System :=
  mkSystem (Nodes s) (Leader s) (<[nodeID := isIsolated]> (Partition s)).

End Sys.

(** [func (n *Node) VerifyAndApplyClockUpdate(update *ClockUpdate) bool],
    on the node object: the result, the node afterwards, and the lines
    printed. *)
Definition VerifyAndApplyClockUpdate (n : Node) (update : ClockUpdate)
    : bool * Node * list string :=
  if IsByzantine n then
    (false, n,
     ["Byzantine node " +:+ ID n +:+ " attempting to manipulate clock" +:+ newline])
  else
    let printed :=
      if bool_decide (Signature update ≠ "")
      then ["Verifying signature for node " +:+ ID n +:+ newline]
      else [] in
    (true,
     mkNode (ID n)
       (VC.Update (Node_VectorClock n) (NodeID update) (Timestamp update))
       (PrivateKey n) (PublicKey n) (IsByzantine n) (IsIsolated n) (Neighbors n),
     printed).

(** The call [neighbor.VerifyAndApplyClockUpdate(update)] through the
    pointer [neighbor]. *)
Definition receive (neighbor : positive) (update : ClockUpdate) (w : World)
    : outcome (bool * World) :=
  do n <- deref w neighbor;
  let '(applied, n', printed) := VerifyAndApplyClockUpdate n update in
  Returns (applied, mkWorld (<[neighbor := n']> (heap w)) (stdout w ++ printed)).

(** The node object after it received [update]. *)
Definition received (n : Node) (update : ClockUpdate) : Node :=
  (VerifyAndApplyClockUpdate n update).1.2.

(** The loop of [PropagateClockUpdate], run while [self] holds its own
    lock: a neighbour that is [self] makes [VerifyAndApplyClockUpdate] wait
    for that lock. *)
Fixpoint Propagate_loop (self : positive) (neighbors : list string)
    (update : ClockUpdate) (system : System) (w : World) : outcome World :=
  match neighbors with
  | [] => Returns w
  | neighborID :: rest =>
      if Sys.IsPartitioned system neighborID then
        Propagate_loop self rest update system w
      else
        match Nodes system !! neighborID with
        | Some neighbor =>
            if decide (neighbor = self) then Blocks
            else
              do r <- receive neighbor update w;
              Propagate_loop self rest update system r.2
        | None => Propagate_loop self rest update system w
        end
  end.

(** [func (n *Node) PropagateClockUpdate(update *ClockUpdate, system *System)] *)
Definition PropagateClockUpdate (n : positive) (update : ClockUpdate)
    (system : System) (w : World) : outcome World :=
  do node <- deref w n;
  Propagate_loop n (Neighbors node) update system w.

Section Crypto.

(** What one call draws from [rand.Reader]. *)
Variable entropy : Type.
(** [sha256.Sum256]. *)
Variable sha256_Sum256 : string → list Z.
(** [ecdsa.Sign(rand.Reader, priv, hash)]: the pair [(r, s)] or an error. *)
Variable ecdsa_Sign : entropy → ecdsa_PrivateKey → list Z → result (Z * Z).
(** [ecdsa.GenerateKey(curve, rand.Reader)]. *)
Variable ecdsa_GenerateKey : entropy → result ecdsa_PrivateKey.

(** [func GenerateKeyPair()], returning the private key, the public key
    and an error. *)
Definition GenerateKeyPair (rnd : entropy) : result (ecdsa_PrivateKey * ecdsa_PublicKey) :=
  match ecdsa_GenerateKey rnd with
  | Err err => Err err
  | Ok privateKey => Ok (privateKey, Public privateKey)
  end.

(** [func SignClockUpdate(privateKey, update) (string, error)] *)
Definition SignClockUpdate (rnd : entropy) (privateKey : ecdsa_PrivateKey)
    (update : ClockUpdate) : result string :=
  let message := signed_message update in
  let hash := sha256_Sum256 message in
  match ecdsa_Sign rnd privateKey hash with
  | Err err => Err err
  | Ok (r, s) =>
      let signature :=
        hex_EncodeToString (big_Int_Bytes r) +:+ ":" +:+
        hex_EncodeToString (big_Int_Bytes s) in
      Ok signature
  end.

(** [func VerifyClockUpdate(publicKey, update) bool].  The message is
    hashed and the signature wrapped in [parts], and then the function
    returns [true] whatever they are. *)
Definition VerifyClockUpdate (publicKey : ecdsa_PublicKey) (update : ClockUpdate) : bool :=
  let message := signed_message update in
  let hash := sha256_Sum256 message in
  let parts : list string := [] in
  let signature := Signature update in
  let parts := if (0 <? String.length signature)%nat then [signature] else parts in
  true.

(** [func NewNode(id string, isByzantine bool, isIsolated bool)], returning
    the new node's address, or an error when no key pair could be made. *)
Definition NewNode (rnd : entropy) (id : string) (isByzantine isIsolated : bool)
    (w : World) : result positive * World :=
  match GenerateKeyPair rnd with
  | Err err => (Err err, w)
  | Ok (privateKey, publicKey) =>
      let p := fresh (dom (heap w)) in
      (Ok p,
       store w p (mkNode id VC.NewVectorClock privateKey publicKey
                    isByzantine isIsolated []))
  end.

(** [func (n *Node) GetClockUpdate() *ClockUpdate]; [now] is what
    [time.Now().Unix()] returns. *)
Definition GetClockUpdate (n : Node) (now : Z) (rnd : entropy) : ClockUpdate :=
  let timestamp := now in
  let update := mkClockUpdate (ID n) timestamp "" in
  if negb (IsByzantine n) then
    match SignClockUpdate rnd (PrivateKey n) update with
    | Ok signature => mkClockUpdate (NodeID update) (Timestamp update) signature
    | Err _ => update
    end
  else update.

(** *** The set-up of [SimulatePartition]

    The part of [SimulatePartition] that builds the seven nodes, their
    neighbour lists and the system (the [Println] narration around it is
    left out).  The source drops the error of [NewNode]; a failed key
    generation leaves a nil pointer, which panics at its first use.  The
    final [range nodes] loop adds the nodes in an unspecified order; the
    identifiers are distinct, so every order builds the same registry. *)
Definition must {A} (r : result A) : outcome A :=
  match r with
  | Ok a => Returns a
  | Err _ => Panics
  end.

Definition create (rnd : entropy) (id : string) (isByzantine isIsolated : bool)
    (w : World) : outcome (positive * World) :=
  let '(r, w') := NewNode rnd id isByzantine isIsolated w in
  do p <- must r;
  Returns (p, w').

(** [node.Neighbors = l] *)
Definition set_Neighbors (p : positive) (l : list string) (w : World) : outcome World :=
  do n <- deref w p;
  Returns (store w p (mkNode (ID n) (Node_VectorClock n) (PrivateKey n) (PublicKey n)
                        (IsByzantine n) (IsIsolated n) l)).

Record Cluster := mkCluster {
  system : System;
  world : World;
  nodeA : positive; nodeB : positive; nodeC : positive; nodeD : positive;
  nodeE : positive; nodeF : positive; nodeG : positive
}.

Definition SimulatePartition_setup (rnd : string → entropy) : outcome Cluster :=
  let system := Sys.NewSystem in
  let w := mkWorld ∅ [] in
  do (a, w) <- create (rnd "A") "A" false false w;
  do (b, w) <- create (rnd "B") "B" false false w;
  do (c, w) <- create (rnd "C") "C" false false w;
  do (d, w) <- create (rnd "D") "D" false true w;
  do (e, w) <- create (rnd "E") "E" false true w;
  do (f, w) <- create (rnd "F") "F" true false w;
  do (g, w) <- create (rnd "G") "G" false false w;
  do w <- set_Neighbors a ["B"; "C"; "D"] w;
  do w <- set_Neighbors b ["A"; "C"; "D"] w;
  do w <- set_Neighbors c ["A"; "B"; "D"] w;
  do w <- set_Neighbors d ["A"; "B"; "C"; "E"] w;
  do w <- set_Neighbors e ["D"] w;
  do w <- set_Neighbors f ["G"] w;
  do w <- set_Neighbors g ["F"] w;
  do system <- Sys.AddNode system a w;
  do system <- Sys.AddNode system b w;
  do system <- Sys.AddNode system c w;
  do system <- Sys.AddNode system d w;
  do system <- Sys.AddNode system e w;
  do system <- Sys.AddNode system f w;
  do system <- Sys.AddNode system g w;
  let system := Sys.SetLeader system "A" in
  Returns (mkCluster system w a b c d e f g).

End Crypto.

(** The addresses [PropagateClockUpdate] calls, in order: for each
    neighbour ID that [IsPartitioned] does not flag and that the registry
    knows, the registered node. *)
Definition delivered_to (system : System) (neighbors : list string) : list positive :=
  omap (λ neighborID,
          if Sys.IsPartitioned system neighborID then None
          else Nodes system !! neighborID) neighbors.

(** The test the propagation loop applies to the link [from → to]:
    [system.IsPartitioned(neighborID)], in which the sender plays no part. *)
Definition link_partitioned (system : System) (from to : string) : bool :=
  Sys.IsPartitioned system to.

(** What [SimulatePartition_setup] builds when the seven key generations
    succeed with the keys [keys]. *)
Definition scenario_node (keys : string → ecdsa_PrivateKey) (id : string)
    (isByzantine isIsolated : bool) (neighbors : list string) : Node :=
  mkNode id VC.NewVectorClock (keys id) (Public (keys id)) isByzantine isIsolated neighbors.

Definition scenario_cluster (keys : string → ecdsa_PrivateKey) : Cluster :=
  mkCluster
    (mkSystem
       (list_to_map [("A", 1); ("B", 2); ("C", 3); ("D", 4); ("E", 5); ("F", 6); ("G", 7)]%positive)
       "A" ∅)
    (mkWorld
       (list_to_map
          [(1, scenario_node keys "A" false false ["B"; "C"; "D"]);
           (2, scenario_node keys "B" false false ["A"; "C"; "D"]);
           (3, scenario_node keys "C" false false ["A"; "B"; "D"]);
           (4, scenario_node keys "D" false true ["A"; "B"; "C"; "E"]);
           (5, scenario_node keys "E" false true ["D"]);
           (6, scenario_node keys "F" true false ["G"]);
           (7, scenario_node keys "G" false false ["F"])]%positive)
       [])
    1 2 3 4 5 6 7.

(** The clock a node object holds for [nodeID], read through its address;
    [None] when the address is not allocated. *)
Definition clock_at (w : World) (p : positive) (nodeID : string) : option Z :=
  (λ n, VC.GetTimestamp (Node_VectorClock n) nodeID) <$> heap w !! p.

(** ** Quorum arithmetic *)

Module Quorum.

(** Go's [int] on a 64-bit platform. *)
Definition wrap_int (z : Z) : Z := (z + 2 ^ 63) mod 2 ^ 64 - 2 ^ 63.

(** The computation of [TestBFTMinimumK]: [k := n - f + 1]. *)
Definition test_k (n f : Z) : Z := wrap_int (wrap_int (n - f) + 1).

(** [TestBFTMinimumK] passes when [k != 6] is false for [n := 7], [f := 2]. *)
Definition TestBFTMinimumK : bool :=
  let n := 7 in
  let f := 2 in
  let k := test_k n f in
  negb (negb (k =? 6)).

Definition InvalidParametersError : string := "InvalidParametersError".

(** Modelled from the spec: the functions [minimumK] and [hasQuorum].  The
    program has no quorum function; it prints the formula
    "Minimum k = n - f + 1 = 7 - 2 + 1 = 6" and its test computes
    [n - f + 1] in line.  [minimumK(n, f)] returns [n - f + 1] and fails
    with [InvalidParametersError] if [f ≥ n] or [f < 0]. *)
Definition minimumK (n f : Z) : result Z :=
  if (f >=? n) || (f <? 0) then Err InvalidParametersError
  else Ok (n - f + 1).

(** Modelled from the spec: [hasQuorum(verifiedCount, n, f)] is true iff
    [verifiedCount ≥ minimumK(n, f)]. *)
Definition hasQuorum (verifiedCount n f : Z) : result bool :=
  match minimumK n f with
  | Ok k => Ok (verifiedCount >=? k)
  | Err e => Err e
  end.

End Quorum.

(** ** A concrete instance of the primitives

    Small stand-ins for the library calls, used to run the definitions on
    concrete inputs.  A draw of [0] from the entropy source stands for a
    read error of [rand.Reader]. *)
Module Toy.

Definition sha256_Sum256 (message : string) : list Z :=
  [Z.of_nat (String.length message)].

Definition ecdsa_Sign (rnd : Z) (priv : ecdsa_PrivateKey) (hash : list Z)
    : result (Z * Z) :=
  if rnd =? 0 then Err "rand.Reader: read failed"
  else Ok (rnd, rnd * D priv + foldr Z.add 0 hash).

Definition ecdsa_GenerateKey (rnd : Z) : result ecdsa_PrivateKey :=
  if rnd =? 0 then Err "rand.Reader: read failed"
  else Ok (mkPrivateKey (mkPublicKey rnd (rnd * rnd)) rnd).

Definition keyA : ecdsa_PrivateKey := mkPrivateKey (mkPublicKey 11 121) 11.
Definition keyB : ecdsa_PrivateKey := mkPrivateKey (mkPublicKey 13 169) 13.

(** The keys [ecdsa_GenerateKey] makes from the draws below. *)
Definition keys (id : string) : ecdsa_PrivateKey :=
  match id with
  | String c _ =>
      let d := Z.of_nat (Ascii.nat_of_ascii c) in
      mkPrivateKey (mkPublicKey d (d * d)) d
  | EmptyString => mkPrivateKey (mkPublicKey 1 1) 1
  end.

(** The entropy the seven [NewNode] calls of the scenario draw. *)
Definition draws (id : string) : Z :=
  match id with
  | String c _ => Z.of_nat (Ascii.nat_of_ascii c)
  | EmptyString => 0
  end.

End Toy.

(** ** Concrete inputs

    Clocks, nodes and systems on which the definitions are run. *)

(** A clock written by successive [Update] calls, as the tests do. *)
Definition clock_of (l : list (string * Z)) : VectorClock :=
  fold_left (λ vc e, VC.Update vc e.1 e.2) l VC.NewVectorClock.

(** Two clocks with one entry each, for different nodes: neither dominates
    the other, and every run of [Compare] stops at the single entry of the
    receiver. *)
Definition only_A : VectorClock := clock_of [("A", 1)].
Definition only_B : VectorClock := clock_of [("B", 1)].

(** Two concurrent clocks over the same keys. *)
Definition cross_1 : VectorClock := clock_of [("A", 1); ("B", 5)].
Definition cross_2 : VectorClock := clock_of [("A", 2); ("B", 3)].

(** The clocks of [TestVectorClockComparison]. *)
Definition test_vc1 : VectorClock := clock_of [("A", 10); ("B", 5)].
Definition test_vc2 : VectorClock := clock_of [("A", 10); ("B", 5); ("A", 15)].

(** An honest node and a Byzantine node of the toy instance. *)
Definition honest_node : Node :=
  mkNode "A" VC.NewVectorClock Toy.keyA (Public Toy.keyA) false false ["B"].
Definition byzantine_node : Node :=
  mkNode "F" VC.NewVectorClock Toy.keyB (Public Toy.keyB) true false ["G"].

(** Two node objects that carry the same ID. *)
Definition twin_world : World :=
  mkWorld (<[2%positive := mkNode "A" VC.NewVectorClock Toy.keyB (Public Toy.keyB)
                             true false []]>
           (<[1%positive := honest_node]> ∅)) [].

(** The registry after the first of the twins was added. *)
Definition twin_system : System := mkSystem {["A" := 1%positive]} "" ∅.

(** The scenario's system with another partition table. *)
Definition with_partition (keys : string → ecdsa_PrivateKey) (partition : gmap string bool)
    : System :=
  mkSystem (Nodes (system (scenario_cluster keys))) (Leader (system (scenario_cluster keys)))
    partition.

(** The scenario on the toy instance, and an update produced at A. *)
Definition toy_cluster : Cluster := scenario_cluster Toy.keys.

Definition toy_update : ClockUpdate :=
  GetClockUpdate Z Toy.sha256_Sum256 Toy.ecdsa_Sign
    (scenario_node Toy.keys "A" false false ["B"; "C"; "D"]) 1700000000 300.

(** A table that stops what D sends to A, B and C: the three receivers are
    flagged, which is the only way the loop can be made to skip them. *)
Definition receivers_flagged : System :=
  Sys.SetPartition
    (Sys.SetPartition (Sys.SetPartition (system toy_cluster) "A" true) "B" true) "C" true.

(** The other way to mark D as cut off: D itself is flagged. *)
Definition sender_flagged : System := Sys.SetPartition (system toy_cluster) "D" true.

(** ** Auxiliary definitions for the further properties *)

(** Whether a string contains the separator [":"] of the signed message. *)
Fixpoint has_colon (s : string) : bool :=
  match s with
  | EmptyString => false
  | String c s' => if Ascii.eqb c ":"%char then true else has_colon s'
  end.

(** The registry is consistent with the heap: every registered pointer is
    allocated, and the node it points to carries the ID it is registered
    under (what [AddNode] establishes). *)
Definition registry_ok (s : System) (w : World) : Prop :=
  ∀ id p, Nodes s !! id = Some p → ∃ n, heap w !! p = Some n ∧ ID n = id.

(** [for _, node := range nodes { system.AddNode(node) }], for one
    visiting order of [nodes]. *)
Fixpoint AddNodes (s : System) (nodes : list positive) (w : World) : outcome System :=
  match nodes with
  | [] => Returns s
  | node :: rest => do s' <- Sys.AddNode s node w; AddNodes s' rest w
  end.

(** A node, and a world, with the [IsIsolated] flags reset. *)
Definition forget_isolated (n : Node) : Node :=
  mkNode (ID n) (Node_VectorClock n) (PrivateKey n) (PublicKey n) (IsByzantine n)
    false (Neighbors n).

Definition forget_isolated_world (w : World) : World :=
  mkWorld (forget_isolated <$> heap w) (stdout w).

Definition outcome_map {A B} (f : A → B) (o : outcome A) : outcome B :=
  do a <- o; Returns (f a).


Section TestPrograms.

Variable entropy : Type.
Variable sha256_Sum256 : string → list Z.
Variable ecdsa_Sign : entropy → ecdsa_PrivateKey → list Z → result (Z * Z).
Variable ecdsa_GenerateKey : entropy → result ecdsa_PrivateKey.

(** The call [node.GetClockUpdate()] through the pointer [node]. *)
Definition produce (node : positive) (now : Z) (rnd : entropy) (w : World)
    : outcome ClockUpdate :=
  do n <- deref w node;
  Returns (GetClockUpdate entropy sha256_Sum256 ecdsa_Sign n now rnd).

(** [func TestClockPropagation(t *testing.T)]: [true] when [t.Errorf] is
    not called.  The test drops the errors of [NewNode]; a nil node makes
    [AddNode] panic, which [create] reports at the creation already. *)
Definition TestClockPropagation (rndA rndB : entropy) (now : Z) (rnd : entropy)
    : outcome bool :=
  let system := Sys.NewSystem in
  let w := mkWorld ∅ [] in
  do (nodeA, w) <- create entropy ecdsa_GenerateKey rndA "A" false false w;
  do (nodeB, w) <- create entropy ecdsa_GenerateKey rndB "B" false false w;
  do system <- Sys.AddNode system nodeA w;
  do system <- Sys.AddNode system nodeB w;
  do w <- set_Neighbors nodeA ["B"] w;
  do w <- set_Neighbors nodeB ["A"] w;
  do update <- produce nodeA now rnd w;
  do w <- PropagateClockUpdate nodeA update system w;
  do b <- deref w nodeB;
  Returns (negb (negb (VC.GetTimestamp (Node_VectorClock b) "A" =? Timestamp update))).

End TestPrograms.

(** * Properties *)

(** ** The logical clock *)

Section ClockFacts.

Implicit Types (vc other : VectorClock) (k nodeID : string) (t ts : Z).

Lemma GetTimestamp_Update_eq vc nodeID t :
  VC.GetTimestamp (VC.Update vc nodeID t) nodeID = t.
Proof. unfold VC.GetTimestamp, VC.Update; simpl. by rewrite lookup_insert_eq. Qed.

Lemma GetTimestamp_Update_ne vc nodeID k t :
  nodeID ≠ k → VC.GetTimestamp (VC.Update vc nodeID t) k = VC.GetTimestamp vc k.
Proof. intros Hne. unfold VC.GetTimestamp, VC.Update; simpl. by rewrite lookup_insert_ne. Qed.

Lemma Update_Update vc nodeID t t' :
  VC.Update (VC.Update vc nodeID t) nodeID t' = VC.Update vc nodeID t'.
Proof. unfold VC.Update; simpl. by rewrite insert_insert_eq. Qed.

Lemma GetTimestamp_Some vc k ts :
  Timestamps vc !! k = Some ts → VC.GetTimestamp vc k = ts.
Proof. intros H. unfold VC.GetTimestamp. by rewrite H. Qed.

Lemma GetTimestamp_absent vc k :
  k ∉ dom (Timestamps vc) → VC.GetTimestamp vc k = 0.
Proof. intros H%not_elem_of_dom. unfold VC.GetTimestamp. by rewrite H. Qed.

(** What the first loop of [Compare] has seen when it returns early. *)
Lemma first_loop_Return entries other m r :
  VC.Compare_first_loop entries other m = VC.Return r →
  (r = -1 ∧ ∃ k ts, (k, ts) ∈ entries ∧ ts < VC.GetTimestamp other k) ∨
  (r = 1 ∧ ∃ k ts, (k, ts) ∈ entries ∧ VC.GetTimestamp other k < ts).
Proof.
  revert m. induction entries as [|[k ts] rest IH]; intros m; simpl; [done|].
  destruct (Z.gtb_spec (VC.GetTimestamp other k) ts) as [Hgt|Hle].
  - intros [= <-]. left. split; [done|]. exists k, ts. split; [left|lia].
  - destruct (Z.ltb_spec (VC.GetTimestamp other k) ts) as [Hlt|Hge].
    + intros [= <-]. right. split; [done|]. exists k, ts. split; [left|lia].
    + intros Hrest. destruct (IH _ Hrest) as [[-> (k' & ts' & Hin & Hlt)]|[-> (k' & ts' & Hin & Hlt)]].
      * left. split; [done|]. exists k', ts'. split; [by right|done].
      * right. split; [done|]. exists k', ts'. split; [by right|done].
Qed.

(** ... and when it runs to the end. *)
Lemma first_loop_Fallthrough entries other m m' :
  VC.Compare_first_loop entries other m = VC.Fallthrough m' →
  ∀ k ts, (k, ts) ∈ entries → ts = VC.GetTimestamp other k.
Proof.
  revert m. induction entries as [|[k ts] rest IH]; intros m; simpl.
  - intros _ k ts Hin. by apply elem_of_nil in Hin.
  - destruct (Z.gtb_spec (VC.GetTimestamp other k) ts) as [Hgt|Hle]; [done|].
    destruct (Z.ltb_spec (VC.GetTimestamp other k) ts) as [Hlt|Hge]; [done|].
    intros Hrest k' ts' Hin. apply elem_of_cons in Hin as [[= -> ->]|Hin].
    + lia.
    + by eapply IH.
Qed.

Lemma range_order_elem (m : gmap string Z) order k ts :
  VC.range_order m order → (k, ts) ∈ order ↔ m !! k = Some ts.
Proof.
  unfold VC.range_order. intros Hp. rewrite Hp. apply elem_of_map_to_list.
Qed.

(** The three ways a run of [Compare] can end. *)
Lemma Compare_cases vc other r :
  VC.Compare vc other r →
  (r = -1 ∧ ∃ k, k ∈ dom (Timestamps vc) ∧ VC.GetTimestamp vc k < VC.GetTimestamp other k) ∨
  (r = 1 ∧ ∃ k, k ∈ dom (Timestamps vc) ∧ VC.GetTimestamp other k < VC.GetTimestamp vc k) ∨
  (r = 0 ∧ ∀ k, k ∈ dom (Timestamps vc) → VC.GetTimestamp vc k = VC.GetTimestamp other k).
Proof.
  intros [order1 order2 H1 H2]. unfold VC.Compare_in_order.
  destruct (VC.Compare_first_loop order1 other 0) as [r0|m] eqn:Hloop.
  - apply first_loop_Return in Hloop
      as [[-> (k & ts & Hin & Hlt)]|[-> (k & ts & Hin & Hlt)]];
      apply (range_order_elem _ _ _ _ H1) in Hin.
    + left. split; [done|]. exists k. split; [by apply elem_of_dom|].
      by rewrite (GetTimestamp_Some _ _ _ Hin).
    + right; left. split; [done|]. exists k. split; [by apply elem_of_dom|].
      by rewrite (GetTimestamp_Some _ _ _ Hin).
  - right; right. split; [done|]. intros k [ts Hk]%elem_of_dom.
    rewrite (GetTimestamp_Some _ _ _ Hk).
    eapply first_loop_Fallthrough; [exact Hloop|].
    by apply (range_order_elem _ _ _ _ H1).
Qed.

(** [Compare] always returns: the run in [map_to_list] order is a run. *)
Lemma Compare_total vc other : VC.Compare vc other (VC.Compare_exec vc other).
Proof. unfold VC.Compare_exec. constructor; unfold VC.range_order; reflexivity. Qed.

Lemma Compare_range vc other r : VC.Compare vc other r → r = -1 ∨ r = 0 ∨ r = 1.
Proof. intros H. destruct (Compare_cases _ _ _ H) as [[-> _]|[[-> _]|[-> _]]]; auto. Qed.

Lemma vc_leb_spec a b : Std.vc_leb a b = true ↔ Std.vc_le a b.
Proof.
  unfold Std.vc_leb. rewrite bool_decide_eq_true. unfold Std.vc_le_keys, Std.vc_le. split.
  - intros H k.
    destruct (decide (k ∈ dom (Timestamps a) ∪ dom (Timestamps b))) as [Hin|Hout].
    + exact (H k Hin).
    + apply not_elem_of_union in Hout as [Ha Hb].
      by rewrite !GetTimestamp_absent.
  - intros H k _. apply H.
Qed.

Lemma vc_leb_false a b :
  Std.vc_leb a b = false ↔ ∃ k, VC.GetTimestamp b k < VC.GetTimestamp a k.
Proof.
  split.
  - intros Hf. unfold Std.vc_leb in Hf. apply bool_decide_eq_false in Hf.
    unfold Std.vc_le_keys in Hf.
    apply (not_set_Forall_Exists _) in Hf as (k & _ & Hk). exists k. simpl in Hk. lia.
  - intros [k Hk]. destruct (Std.vc_leb a b) eqn:E; [|done].
    apply vc_leb_spec in E. specialize (E k). lia.
Qed.

(** The specification's four cases, in its own words. *)
Lemma compare_LESS a b :
  Std.compare a b = LESS ↔
  Std.vc_le a b ∧ ∃ k, VC.GetTimestamp a k < VC.GetTimestamp b k.
Proof.
  unfold Std.compare. rewrite <- vc_leb_spec, <- vc_leb_false.
  destruct (Std.vc_leb a b), (Std.vc_leb b a); intuition congruence.
Qed.

Lemma compare_GREATER a b :
  Std.compare a b = GREATER ↔
  Std.vc_le b a ∧ ∃ k, VC.GetTimestamp b k < VC.GetTimestamp a k.
Proof.
  unfold Std.compare. rewrite <- vc_leb_spec, <- vc_leb_false.
  destruct (Std.vc_leb a b), (Std.vc_leb b a); intuition congruence.
Qed.

Lemma compare_EQUAL a b :
  Std.compare a b = EQUAL ↔ ∀ k, VC.GetTimestamp a k = VC.GetTimestamp b k.
Proof.
  unfold Std.compare. split.
  - destruct (Std.vc_leb a b) eqn:E1, (Std.vc_leb b a) eqn:E2; try done.
    apply vc_leb_spec in E1, E2. intros _ k. specialize (E1 k). specialize (E2 k). lia.
  - intros H.
    assert (Std.vc_leb a b = true) as -> by (apply vc_leb_spec; intros k; rewrite H; lia).
    assert (Std.vc_leb b a = true) as -> by (apply vc_leb_spec; intros k; rewrite H; lia).
    done.
Qed.

Lemma compare_CONCURRENT a b :
  Std.compare a b = CONCURRENT ↔ ¬ Std.vc_le a b ∧ ¬ Std.vc_le b a.
Proof.
  unfold Std.compare. rewrite <- !vc_leb_spec.
  destruct (Std.vc_leb a b), (Std.vc_leb b a); intuition congruence.
Qed.

Lemma compare_inverse a b :
  Std.compare b a =
  match Std.compare a b with
  | LESS => GREATER
  | GREATER => LESS
  | EQUAL => EQUAL
  | CONCURRENT => CONCURRENT
  end.
Proof. unfold Std.compare. by destruct (Std.vc_leb a b), (Std.vc_leb b a). Qed.

(** When [vc] holds every key of [other], the result of [Compare] follows
    the standard order wherever that order decides, and is [-1] or [1] on
    concurrent clocks. *)
Lemma Compare_follows_std vc other r :
  dom (Timestamps other) ⊆ dom (Timestamps vc) →
  VC.Compare vc other r →
  match Std.compare vc other with
  | LESS => r = -1
  | GREATER => r = 1
  | EQUAL => r = 0
  | CONCURRENT => r = -1 ∨ r = 1
  end.
Proof.
  intros Hdom Hrun.
  destruct (Compare_cases _ _ _ Hrun) as [[-> (k & _ & Hk)]|[[-> (k & _ & Hk)]|[-> Hall]]].
  - destruct (Std.compare vc other) eqn:E; auto.
    + apply compare_GREATER in E as [Hle _]. specialize (Hle k). lia.
    + apply compare_EQUAL with (k:=k) in E. lia.
  - destruct (Std.compare vc other) eqn:E; auto.
    + apply compare_LESS in E as [Hle _]. specialize (Hle k). lia.
    + apply compare_EQUAL with (k:=k) in E. lia.
  - assert (Std.compare vc other = EQUAL) as ->; [|done].
    apply compare_EQUAL. intros k.
    destruct (decide (k ∈ dom (Timestamps vc))) as [Hin|Hout]; [by apply Hall|].
    rewrite !GetTimestamp_absent; [done| |done]. set_solver.
Qed.

Lemma ordering_of_result_cases r :
  r = -1 ∨ r = 0 ∨ r = 1 →
  (ordering_of_result r = Some LESS ↔ r = -1) ∧
  (ordering_of_result r = Some EQUAL ↔ r = 0) ∧
  (ordering_of_result r = Some GREATER ↔ r = 1) ∧
  ordering_of_result r ≠ Some CONCURRENT.
Proof. intros [-> | [-> | ->]]; vm_compute; intuition congruence. Qed.

End ClockFacts.

Lemma Compare_only_A_only_B r : VC.Compare only_A only_B r → r = 1.
Proof.
  intros H. destruct (Compare_cases _ _ _ H) as [[-> (k & Hk & Hlt)]|[[-> _]|[-> Hall]]].
  - exfalso. apply elem_of_dom in Hk as [ts Hk].
    unfold only_A, clock_of in Hk; simpl in Hk.
    apply lookup_insert_Some in Hk as [[<- <-]|[_ Hk]]; [|by rewrite lookup_empty in Hk].
    vm_compute in Hlt. done.
  - done.
  - exfalso.
    assert ("A" ∈ dom (Timestamps only_A)) as Hin.
    { unfold only_A, clock_of; simpl. rewrite dom_insert_L. set_solver. }
    apply Hall in Hin. vm_compute in Hin. done.
Qed.

Lemma Compare_only_B_only_A r : VC.Compare only_B only_A r → r = 1.
Proof.
  intros H. destruct (Compare_cases _ _ _ H) as [[-> (k & Hk & Hlt)]|[[-> _]|[-> Hall]]].
  - exfalso. apply elem_of_dom in Hk as [ts Hk].
    unfold only_B, clock_of in Hk; simpl in Hk.
    apply lookup_insert_Some in Hk as [[<- <-]|[_ Hk]]; [|by rewrite lookup_empty in Hk].
    vm_compute in Hlt. done.
  - done.
  - exfalso.
    assert ("B" ∈ dom (Timestamps only_B)) as Hin.
    { unfold only_B, clock_of; simpl. rewrite dom_insert_L. set_solver. }
    apply Hall in Hin. vm_compute in Hin. done.
Qed.

Lemma test_clocks_same_keys : dom (Timestamps test_vc1) = dom (Timestamps test_vc2).
Proof.
  unfold test_vc1, test_vc2, clock_of; simpl. rewrite !dom_insert_L. set_solver.
Qed.

Lemma received_correct n update :
  IsByzantine n = false →
  received n update =
  mkNode (ID n) (VC.Update (Node_VectorClock n) (NodeID update) (Timestamp update))
    (PrivateKey n) (PublicKey n) false (IsIsolated n) (Neighbors n).
Proof. intros Hb. unfold received, VerifyAndApplyClockUpdate. by rewrite Hb. Qed.

Lemma received_byzantine n update : IsByzantine n = true → received n update = n.
Proof. intros Hb. unfold received, VerifyAndApplyClockUpdate. by rewrite Hb. Qed.

Lemma received_IsByzantine n update : IsByzantine (received n update) = IsByzantine n.
Proof.
  destruct (IsByzantine n) eqn:Hb.
  - by rewrite received_byzantine.
  - by rewrite received_correct.
Qed.

Lemma received_twice n update : received (received n update) update = received n update.
Proof.
  destruct (IsByzantine n) eqn:Hb.
  - by rewrite !(received_byzantine n) by done.
  - rewrite (received_correct n update Hb).
    rewrite received_correct by done. simpl. by rewrite Update_Update.
Qed.

(** C2, as the claim states it, fails: [Update] writes [10] and then [5]
    for node A, and the clock then holds [5], not [10]. *)
Lemma Update_regresses :
  VC.GetTimestamp (VC.Update (VC.Update VC.NewVectorClock "A" 10) "A" 5) "A" = 5 ∧
  ¬ (∀ (vc : VectorClock) (n : string) (t t' : Z),
       t' < t → VC.GetTimestamp (VC.Update (VC.Update vc n t) n t') n = t).
Proof.
  split; [by vm_compute|].
  intros H. specialize (H VC.NewVectorClock "A" 10 5 eq_refl).
  vm_compute in H. done.
Qed.

(** C2 (amended): [Update] overwrites. After [update(n, t)] followed by
    [update(n, t')] with [t' < t], [get(n)] returns the later write [t'], not
    [t]; the same holds when the two timestamps arrive as clock updates at a
    non-Byzantine node through [VerifyAndApplyClockUpdate]. *)
Theorem Update_last_write_wins (vc : VectorClock) (n : string) (t t' : Z) :
  t' < t →
  VC.GetTimestamp (VC.Update (VC.Update vc n t) n t') n = t' ∧
  VC.GetTimestamp (VC.Update (VC.Update vc n t) n t') n ≠ t ∧
  ∀ (node : Node) (sig sig' : string),
    IsByzantine node = false →
    VC.GetTimestamp
      (Node_VectorClock
         (received (received node (mkClockUpdate n t sig)) (mkClockUpdate n t' sig'))) n
    = t'.
Proof.
  intros Hlt. rewrite GetTimestamp_Update_eq. split; [done|]. split; [lia|].
  intros node sig sig' Hb.
  rewrite (received_correct (received node _)) by (by rewrite received_IsByzantine).
  simpl. apply GetTimestamp_Update_eq.
Qed.

Lemma Update_last_write_wins_witness :
  5 < 10 ∧
  VC.GetTimestamp (VC.Update (VC.Update VC.NewVectorClock "A" 10) "A" 5) "A" = 5.
Proof.
  split; [lia|].
  apply (Update_last_write_wins VC.NewVectorClock "A" 10 5). lia.
Defined.

(** C7: merging is idempotent. Writing the timestamp of a clock update into
    a clock twice gives the clock that writing it once gives, and a node
    that receives the same update twice is in the state it was in after the
    first delivery. *)
Theorem merge_idempotent (vc : VectorClock) (update : ClockUpdate) (n : Node) :
  VC.Update (VC.Update vc (NodeID update) (Timestamp update))
    (NodeID update) (Timestamp update)
  = VC.Update vc (NodeID update) (Timestamp update) ∧
  received (received n update) update = received n update.
Proof. split; [apply Update_Update|apply received_twice]. Qed.

(** C5, as the claim states it, fails: the clocks [{A: 1}] and [{B: 1}] are
    concurrent, and every run of [Compare] on them returns [1], which the
    source reads as "greater". *)
Lemma Compare_misses_concurrent :
  Std.compare only_A only_B = CONCURRENT ∧
  VC.Compare only_A only_B 1 ∧
  (∀ r, VC.Compare only_A only_B r → ordering_of_result r = Some GREATER) ∧
  ¬ (∀ (vc other : VectorClock) (r : Z),
       VC.Compare vc other r → ordering_of_result r = Some (Std.compare vc other)).
Proof.
  assert (VC.Compare only_A only_B 1) as Hrun.
  { pose proof (Compare_total only_A only_B) as H.
    by rewrite (Compare_only_A_only_B _ H) in H at 1. }
  split; [by vm_compute|]. split; [done|]. split.
  - by intros r ->%Compare_only_A_only_B.
  - intros H. specialize (H _ _ _ Hrun). vm_compute in H. done.
Qed.

(** C5 (amended): [Compare] always returns, and its result is one of the
    three values [-1], [0], [1] (less, equal, greater), never a fourth one
    for concurrent clocks. When the receiver holds every key of [other]
    (absent keys read as 0): if every entry of the receiver is at most the
    corresponding entry of [other] and one is strictly less it returns
    "less", symmetrically "greater"; it returns "equal" iff all entries
    match; and when neither clock dominates the other it returns "less" or
    "greater". So on clocks that are not concurrent the result is exactly
    the standard vector-clock order, while a "less" ("greater") result by
    itself only shows that the clocks are less (greater) or concurrent. *)
Theorem Compare_three_valued (vc other : VectorClock) :
  (∃ r, VC.Compare vc other r) ∧
  (∀ r, VC.Compare vc other r →
     is_Some (ordering_of_result r) ∧ ordering_of_result r ≠ Some CONCURRENT) ∧
  (dom (Timestamps other) ⊆ dom (Timestamps vc) →
   ∀ r, VC.Compare vc other r →
     match Std.compare vc other with
     | CONCURRENT =>
         ordering_of_result r = Some LESS ∨ ordering_of_result r = Some GREATER
     | decided => ordering_of_result r = Some decided
     end ∧
     (ordering_of_result r = Some EQUAL ↔ Std.compare vc other = EQUAL) ∧
     (ordering_of_result r = Some LESS →
      Std.compare vc other = LESS ∨ Std.compare vc other = CONCURRENT) ∧
     (ordering_of_result r = Some GREATER →
      Std.compare vc other = GREATER ∨ Std.compare vc other = CONCURRENT) ∧
     (Std.compare vc other ≠ CONCURRENT →
      ordering_of_result r = Some (Std.compare vc other))).
Proof.
  split; [eexists; apply Compare_total|]. split.
  - intros r Hrun.
    destruct (Compare_range _ _ _ Hrun) as [-> | [-> | ->]];
      (split; [eexists; reflexivity|discriminate]).
  - intros Hdom r Hrun. pose proof (Compare_follows_std _ _ _ Hdom Hrun) as H.
    destruct (Std.compare vc other).
    + subst r. vm_compute. intuition congruence.
    + subst r. vm_compute. intuition congruence.
    + subst r. vm_compute. intuition congruence.
    + destruct H as [-> | ->]; vm_compute; intuition congruence.
Qed.

Lemma Compare_three_valued_witness :
  dom (Timestamps test_vc2) ⊆ dom (Timestamps test_vc1) ∧
  ordering_of_result (VC.Compare_exec test_vc1 test_vc2) = Some LESS.
Proof.
  assert (dom (Timestamps test_vc2) ⊆ dom (Timestamps test_vc1)) as Hdom
    by (by rewrite test_clocks_same_keys).
  split; [exact Hdom|].
  exact (proj1 (proj2 (proj2 (Compare_three_valued test_vc1 test_vc2)) Hdom _
                  (Compare_total test_vc1 test_vc2))).
Defined.

(** C6, as the claim states it, fails: for the clocks [{A: 1}] and [{B: 1}]
    both [A.compare(B)] and [B.compare(A)] return [1] ("greater"), so
    [B.compare(A)] is "greater" while [A.compare(B)] is not "less". *)
Lemma Compare_not_inverse :
  (∀ r, VC.Compare only_A only_B r → r = 1) ∧
  (∀ r, VC.Compare only_B only_A r → r = 1) ∧
  ¬ (∀ (a b : VectorClock) (ra rb : Z),
       VC.Compare a b ra → VC.Compare b a rb →
       (ordering_of_result ra = Some LESS ↔ ordering_of_result rb = Some GREATER) ∧
       (ordering_of_result ra = Some EQUAL ↔ ordering_of_result rb = Some EQUAL) ∧
       (ordering_of_result ra = Some CONCURRENT ↔
        ordering_of_result rb = Some CONCURRENT)).
Proof.
  split; [apply Compare_only_A_only_B|]. split; [apply Compare_only_B_only_A|].
  intros H.
  pose proof (Compare_total only_A only_B) as Hab.
  pose proof (Compare_total only_B only_A) as Hba.
  destruct (H _ _ _ _ Hab Hba) as [[_ Hgl] _].
  rewrite (Compare_only_A_only_B _ Hab), (Compare_only_B_only_A _ Hba) in Hgl.
  vm_compute in Hgl. by specialize (Hgl eq_refl).
Qed.

(** C6 (amended): for clocks [A] and [B] over the same set of keys,
    [A.compare(B)] is "equal" iff [B.compare(A)] is "equal", neither is ever
    "concurrent", and, when one of the clocks dominates the other,
    [A.compare(B)] is "less" iff [B.compare(A)] is "greater" and the other
    way round. *)
Theorem Compare_inverse_when_ordered (a b : VectorClock) (ra rb : Z) :
  dom (Timestamps a) = dom (Timestamps b) →
  VC.Compare a b ra → VC.Compare b a rb →
  (ordering_of_result ra = Some EQUAL ↔ ordering_of_result rb = Some EQUAL) ∧
  (ordering_of_result ra ≠ Some CONCURRENT ∧ ordering_of_result rb ≠ Some CONCURRENT) ∧
  (Std.vc_le a b ∨ Std.vc_le b a →
   (ordering_of_result ra = Some LESS ↔ ordering_of_result rb = Some GREATER) ∧
   (ordering_of_result ra = Some GREATER ↔ ordering_of_result rb = Some LESS)).
Proof.
  intros Hdom Hab Hba.
  pose proof (Compare_follows_std a b ra) as Ha.
  pose proof (Compare_follows_std b a rb) as Hb.
  rewrite (compare_inverse a b) in Hb.
  specialize (Ha ltac:(by rewrite Hdom) Hab). specialize (Hb ltac:(by rewrite Hdom) Hba).
  destruct (ordering_of_result_cases ra (Compare_range _ _ _ Hab)) as (Hl & He & Hg & Hc).
  destruct (ordering_of_result_cases rb (Compare_range _ _ _ Hba)) as (Hl' & He' & Hg' & Hc').
  rewrite Hl, He, Hg, Hl', He', Hg'.
  destruct (Std.compare a b) eqn:E.
  - subst. repeat split; intros; try lia; try done.
  - subst. repeat split; intros; try lia; try done.
  - subst. repeat split; intros; try lia; try done.
  - split; [lia|]. split; [done|]. intros Hord. exfalso.
    apply compare_CONCURRENT in E. tauto.
Qed.

Lemma Compare_inverse_when_ordered_witness :
  dom (Timestamps test_vc1) = dom (Timestamps test_vc2) ∧
  (ordering_of_result (VC.Compare_exec test_vc1 test_vc2) = Some LESS ↔
   ordering_of_result (VC.Compare_exec test_vc2 test_vc1) = Some GREATER).
Proof.
  split; [exact test_clocks_same_keys|].
  refine (proj1 (proj2 (proj2
    (Compare_inverse_when_ordered test_vc1 test_vc2 _ _ test_clocks_same_keys
       (Compare_total _ _) (Compare_total _ _))) _)).
  left. apply vc_leb_spec. by vm_compute.
Defined.

(** ** Signing and verification *)

Section SigningFacts.

Variable entropy : Type.
Variable sha256_Sum256 : string → list Z.
Variable ecdsa_Sign : entropy → ecdsa_PrivateKey → list Z → result (Z * Z).

Let Sign := SignClockUpdate entropy sha256_Sum256 ecdsa_Sign.
Let Verify := VerifyClockUpdate sha256_Sum256.
Let Produce := GetClockUpdate entropy sha256_Sum256 ecdsa_Sign.

(** The signature is made from [NodeID] and [Timestamp] alone. *)
Lemma SignClockUpdate_content rnd privateKey (u1 u2 : ClockUpdate) :
  NodeID u1 = NodeID u2 → Timestamp u1 = Timestamp u2 →
  Sign rnd privateKey u1 = Sign rnd privateKey u2.
Proof.
  intros Hid Hts. unfold Sign, SignClockUpdate, signed_message. by rewrite Hid, Hts.
Qed.

(** C1: the specification asks [verify] to reject an empty signature, a
    signature made with another key, and a signature over another
    timestamp. [VerifyClockUpdate] returns [true] in each of these cases,
    and for every other key and update: the unsigned update
    [{A, 1, ""}] is accepted; an update signed with one private key is
    accepted under any public key; and it is still accepted after its
    timestamp has been changed. *)
Theorem VerifyClockUpdate_accepts_everything :
  (∀ publicKey update, Verify publicKey update = true) ∧
  (∀ publicKey, Verify publicKey (mkClockUpdate "A" 1 "") = true) ∧
  (∀ rnd privateKeyX publicKeyY update,
     match Sign rnd privateKeyX update with
     | Ok signature =>
         Verify publicKeyY
           (mkClockUpdate (NodeID update) (Timestamp update) signature) = true
     | Err _ => True
     end) ∧
  (∀ rnd privateKey publicKey update timestamp',
     match Sign rnd privateKey update with
     | Ok signature =>
         Verify publicKey (mkClockUpdate (NodeID update) timestamp' signature) = true
     | Err _ => True
     end).
Proof.
  split; [done|]. split; [done|].
  split; intros; by destruct (Sign _ _ _).
Qed.

(** C9 (amended): [GetClockUpdate] returns an update whose [NodeID] is the
    node's own ID and whose [Timestamp] is the current time. For a
    Byzantine node the [Signature] is empty. For a non-Byzantine node the
    [Signature] is the one [SignClockUpdate] computes over
    [(NodeID, Timestamp)] when signing succeeds; when signing returns an
    error the update is returned unsigned. *)
Theorem GetClockUpdate_signature (n : Node) (now : Z) (rnd : entropy) :
  NodeID (Produce n now rnd) = ID n ∧
  Timestamp (Produce n now rnd) = now ∧
  (IsByzantine n = true → Signature (Produce n now rnd) = "") ∧
  (IsByzantine n = false →
   ∀ update, NodeID update = ID n → Timestamp update = now →
     match Sign rnd (PrivateKey n) update with
     | Ok signature => Signature (Produce n now rnd) = signature
     | Err _ => Signature (Produce n now rnd) = ""
     end).
Proof.
  unfold Produce, GetClockUpdate.
  destruct (IsByzantine n) eqn:Hb; simpl.
  - repeat split; done.
  - fold Sign.
    assert (∀ update, NodeID update = ID n → Timestamp update = now →
              Sign rnd (PrivateKey n) update
              = Sign rnd (PrivateKey n) (mkClockUpdate (ID n) now "")) as Hsame
      by (intros; by apply SignClockUpdate_content).
    destruct (Sign rnd (PrivateKey n) (mkClockUpdate (ID n) now "")) as [sig|err] eqn:Hs;
      simpl; (split; [done|]); (split; [done|]); (split; [done|]);
      intros _ update Hid Hts; by rewrite (Hsame update Hid Hts).
Qed.

End SigningFacts.

Lemma GetClockUpdate_signature_witness :
  IsByzantine byzantine_node = true ∧
  Signature (GetClockUpdate Z Toy.sha256_Sum256 Toy.ecdsa_Sign byzantine_node 1700000000 7) = "" ∧
  IsByzantine honest_node = false ∧
  Signature (GetClockUpdate Z Toy.sha256_Sum256 Toy.ecdsa_Sign honest_node 1700000000 300)
  = "012c:0cf0".
Proof.
  split; [reflexivity|]. split.
  - exact (proj1 (proj2 (proj2
      (GetClockUpdate_signature Z Toy.sha256_Sum256 Toy.ecdsa_Sign
         byzantine_node 1700000000 7))) eq_refl).
  - split; [reflexivity|].
    exact (proj2 (proj2 (proj2
      (GetClockUpdate_signature Z Toy.sha256_Sum256 Toy.ecdsa_Sign
         honest_node 1700000000 300))) eq_refl
      (mkClockUpdate "A" 1700000000 "forged") eq_refl eq_refl).
Defined.

(** C9, as the claim states it, fails on the error path of
    [SignClockUpdate]: a non-Byzantine node whose signing call returns an
    error hands out an update with an empty signature. *)
Lemma GetClockUpdate_unsigned_on_error :
  IsByzantine honest_node = false ∧
  SignClockUpdate Z Toy.sha256_Sum256 Toy.ecdsa_Sign 0 (PrivateKey honest_node)
    (mkClockUpdate "A" 1700000000 "") = Err "rand.Reader: read failed" ∧
  Signature (GetClockUpdate Z Toy.sha256_Sum256 Toy.ecdsa_Sign honest_node 1700000000 0) = "" ∧
  ¬ (∀ (n : Node) (now rnd : Z),
       IsByzantine n = false →
       ∃ signature,
         SignClockUpdate Z Toy.sha256_Sum256 Toy.ecdsa_Sign rnd (PrivateKey n)
           (mkClockUpdate (ID n) now "") = Ok signature ∧
         Signature (GetClockUpdate Z Toy.sha256_Sum256 Toy.ecdsa_Sign n now rnd) = signature).
Proof.
  split; [reflexivity|]. split; [reflexivity|]. split; [reflexivity|].
  intros H. destruct (H honest_node 1700000000 0 eq_refl) as (sig & Hs & _).
  vm_compute in Hs. discriminate Hs.
Qed.

(** ** Receiving an update *)

Lemma receive_Returns p update w n :
  heap w !! p = Some n →
  receive p update w =
  Returns ((VerifyAndApplyClockUpdate n update).1.1,
           mkWorld (<[p := received n update]> (heap w))
             (stdout w ++ (VerifyAndApplyClockUpdate n update).2)).
Proof.
  intros Hp. unfold receive, deref, received. rewrite Hp. simpl.
  by destruct (VerifyAndApplyClockUpdate n update) as [[applied n'] printed].
Qed.

(** C10: a Byzantine receiver returns [false] and its clock (indeed the
    whole node object, and the heap it lives in) is unchanged. A
    non-Byzantine receiver returns [true] and writes the update's timestamp
    under the update's node ID; the result and the node afterwards are the
    same for two updates that differ only in their signature, so no
    signature, valid or not, changes the outcome. *)
Theorem VerifyAndApplyClockUpdate_outcome (n : Node) (update : ClockUpdate) :
  (IsByzantine n = true →
   (VerifyAndApplyClockUpdate n update).1 = (false, n) ∧
   ∀ p w, heap w !! p = Some n →
     ∃ w', receive p update w = Returns (false, w') ∧ heap w' = heap w) ∧
  (IsByzantine n = false →
   (VerifyAndApplyClockUpdate n update).1.1 = true ∧
   Node_VectorClock (received n update)
   = VC.Update (Node_VectorClock n) (NodeID update) (Timestamp update) ∧
   VC.GetTimestamp (Node_VectorClock (received n update)) (NodeID update)
   = Timestamp update ∧
   ∀ signature',
     (VerifyAndApplyClockUpdate n
        (mkClockUpdate (NodeID update) (Timestamp update) signature')).1
     = (VerifyAndApplyClockUpdate n update).1).
Proof.
  split; intros Hb.
  - split.
    + unfold VerifyAndApplyClockUpdate. by rewrite Hb.
    + intros p w Hp. eexists. rewrite (receive_Returns _ _ _ _ Hp). split.
      * unfold VerifyAndApplyClockUpdate at 1. rewrite Hb. reflexivity.
      * simpl. rewrite received_byzantine by done. by apply insert_id.
  - rewrite received_correct by done. simpl. split; [|split; [done|split]].
    + unfold VerifyAndApplyClockUpdate. by rewrite Hb.
    + apply GetTimestamp_Update_eq.
    + intros signature'. unfold VerifyAndApplyClockUpdate. by rewrite Hb.
Qed.

Lemma VerifyAndApplyClockUpdate_outcome_witness :
  IsByzantine byzantine_node = true ∧
  (VerifyAndApplyClockUpdate byzantine_node (mkClockUpdate "A" 42 "012c:0cf0")).1
  = (false, byzantine_node) ∧
  IsByzantine honest_node = false ∧
  VC.GetTimestamp
    (Node_VectorClock (received honest_node (mkClockUpdate "B" 42 ""))) "B" = 42.
Proof.
  split; [reflexivity|]. split.
  - exact (proj1 (proj1 (VerifyAndApplyClockUpdate_outcome byzantine_node
                           (mkClockUpdate "A" 42 "012c:0cf0")) eq_refl)).
  - split; [reflexivity|].
    exact (proj1 (proj2 (proj2
      (proj2 (VerifyAndApplyClockUpdate_outcome honest_node (mkClockUpdate "B" 42 ""))
         eq_refl)))).
Defined.

(** ** Membership *)

(** C8, as the claim states it, fails: adding a second node with ID "A"
    returns normally, and the registry then maps "A" to the second node
    where it mapped it to the first. *)
Lemma AddNode_replaces_duplicate :
  Sys.AddNode Sys.NewSystem 1 twin_world = Returns twin_system ∧
  Nodes twin_system !! "A" = Some 1%positive ∧
  Sys.AddNode twin_system 2 twin_world
  = Returns (mkSystem (<["A" := 2%positive]> (Nodes twin_system)) "" ∅) ∧
  <["A" := 2%positive]> (Nodes twin_system) !! "A" = Some 2%positive ∧
  ¬ (∀ (s : System) (node : positive) (w : World) (n : Node),
       heap w !! node = Some n → is_Some (Nodes s !! ID n) →
       ∀ s', Sys.AddNode s node w = Returns s' → Nodes s' !! ID n = Nodes s !! ID n).
Proof.
  split; [reflexivity|]. split; [reflexivity|]. split; [reflexivity|].
  split; [apply lookup_insert_eq|].
  intros H.
  specialize (H twin_system 2%positive twin_world _ eq_refl).
  simpl in H. specialize (H ltac:(by eexists) _ eq_refl). simpl in H.
  rewrite lookup_insert_eq in H. unfold twin_system in H; simpl in H.
  rewrite lookup_singleton_eq in H. discriminate H.
Qed.

(** C8 (amended): [addNode(node)] registers the node under its ID and never
    fails for a node that exists; when a node with the same ID is already
    registered, the new node takes its place. Every other registration, the
    leader and the partition table are unchanged. *)
Theorem AddNode_registers (s : System) (node : positive) (w : World) (n : Node) :
  heap w !! node = Some n →
  ∃ s', Sys.AddNode s node w = Returns s' ∧
        Nodes s' !! ID n = Some node ∧
        (∀ id, id ≠ ID n → Nodes s' !! id = Nodes s !! id) ∧
        Leader s' = Leader s ∧ Partition s' = Partition s.
Proof.
  intros Hn. unfold Sys.AddNode, deref. rewrite Hn. simpl. eexists. split; [done|].
  simpl. split; [apply lookup_insert_eq|]. split; [|done].
  intros id Hne. by apply lookup_insert_ne.
Qed.

Lemma AddNode_registers_witness :
  heap twin_world !! 2%positive
  = Some (mkNode "A" VC.NewVectorClock Toy.keyB (Public Toy.keyB) true false []) ∧
  ∃ s', Sys.AddNode twin_system 2 twin_world = Returns s' ∧
        Nodes s' !! "A" = Some 2%positive.
Proof.
  split; [reflexivity|].
  destruct (AddNode_registers twin_system 2 twin_world _ eq_refl)
    as (s' & Hs & Hl & _).
  exists s'. split; [exact Hs|exact Hl].
Defined.

(** ** Quorum *)

(** C4: [minimumK(n, f)] returns [n - f + 1] whenever [0 ≤ f < n] and fails
    with [InvalidParametersError] when [f ≥ n] or [f < 0]; so
    [minimumK(7, 2) = 6], [hasQuorum(6, 7, 2)] holds and [hasQuorum(5, 7, 2)]
    does not. The value [6] is also what the program's test computes in
    line for [n = 7], [f = 2]. *)
Theorem minimumK_spec :
  (∀ n f : Z, 0 <= f < n → Quorum.minimumK n f = Ok (n - f + 1)) ∧
  (∀ n f : Z, f >= n ∨ f < 0 → Quorum.minimumK n f = Err Quorum.InvalidParametersError) ∧
  Quorum.minimumK 7 2 = Ok 6 ∧
  Quorum.hasQuorum 6 7 2 = Ok true ∧
  Quorum.hasQuorum 5 7 2 = Ok false ∧
  Quorum.test_k 7 2 = 6 ∧ Quorum.TestBFTMinimumK = true.
Proof.
  split; [|split; [|by vm_compute]].
  - intros n f [H0 Hn]. unfold Quorum.minimumK.
    destruct (Z.geb_spec f n); [lia|]. destruct (Z.ltb_spec f 0); [lia|]. done.
  - intros n f H. unfold Quorum.minimumK.
    destruct (Z.geb_spec f n); [done|]. destruct (Z.ltb_spec f 0); [done|]. lia.
Qed.

Lemma minimumK_spec_witness :
  0 <= 2 < 7 ∧ Quorum.minimumK 7 2 = Ok (7 - 2 + 1) ∧
  (7 >= 7 ∨ 7 < 0) ∧ Quorum.minimumK 7 7 = Err Quorum.InvalidParametersError.
Proof.
  split; [lia|]. split; [apply (proj1 minimumK_spec 7 2); lia|].
  split; [lia|]. apply (proj1 (proj2 minimumK_spec) 7 7). lia.
Defined.

(** ** Propagation *)

Section PropagationFacts.

Variable update : ClockUpdate.
Variable system : System.

Lemma delivered_to_cons_skip neighborID rest :
  Sys.IsPartitioned system neighborID = true →
  delivered_to system (neighborID :: rest) = delivered_to system rest.
Proof. intros H. unfold delivered_to; simpl. by rewrite H. Qed.

Lemma delivered_to_cons_unknown neighborID rest :
  Nodes system !! neighborID = None →
  delivered_to system (neighborID :: rest) = delivered_to system rest.
Proof.
  intros H. unfold delivered_to; simpl. rewrite H.
  by destruct (Sys.IsPartitioned system neighborID).
Qed.

Lemma delivered_to_cons_deliver neighborID rest a :
  Sys.IsPartitioned system neighborID = false →
  Nodes system !! neighborID = Some a →
  delivered_to system (neighborID :: rest) = a :: delivered_to system rest.
Proof. intros H1 H2. unfold delivered_to; simpl. by rewrite H1, H2. Qed.

Lemma elem_of_delivered_to a neighbors :
  a ∈ delivered_to system neighbors ↔
  ∃ neighborID, neighborID ∈ neighbors ∧
                Sys.IsPartitioned system neighborID = false ∧
                Nodes system !! neighborID = Some a.
Proof.
  unfold delivered_to. rewrite list_elem_of_omap. split.
  - intros (nb & Hin & Hnb). exists nb. split; [done|].
    by destruct (Sys.IsPartitioned system nb).
  - intros (nb & Hin & Hp & Hnb). exists nb. split; [done|]. by rewrite Hp.
Qed.

(** The loop returns when the sender is not among the addresses it calls
    and these are allocated; each of them is then in the state
    [VerifyAndApplyClockUpdate] leaves it in, and every other node object is
    untouched. *)
Lemma Propagate_loop_Returns self neighbors w :
  self ∉ delivered_to system neighbors →
  (∀ a, a ∈ delivered_to system neighbors → is_Some (heap w !! a)) →
  ∃ w', Propagate_loop self neighbors update system w = Returns w' ∧
        (∀ a, a ∈ delivered_to system neighbors →
              heap w' !! a = (λ n, received n update) <$> heap w !! a) ∧
        (∀ a, a ∉ delivered_to system neighbors → heap w' !! a = heap w !! a).
Proof.
  revert w. induction neighbors as [|nb rest IH]; intros w Hself Halloc.
  - exists w. simpl. split; [done|]. split; [|done].
    intros a Ha. by apply elem_of_nil in Ha.
  - simpl. destruct (Sys.IsPartitioned system nb) eqn:Hp.
    { rewrite (delivered_to_cons_skip _ _ Hp) in *. by apply IH. }
    destruct (Nodes system !! nb) as [a0|] eqn:Hnb.
    2:{ rewrite (delivered_to_cons_unknown _ _ Hnb) in *. by apply IH. }
    rewrite (delivered_to_cons_deliver _ _ _ Hp Hnb) in *.
    apply not_elem_of_cons in Hself as [Hne Hself].
    destruct (decide (a0 = self)) as [->|_]; [done|].
    destruct (Halloc a0 ltac:(left)) as [n0 Hn0].
    rewrite (receive_Returns _ _ _ _ Hn0). simpl.
    set (w1 := mkWorld _ _).
    destruct (IH w1 Hself) as (w' & Hrun & Hin & Hout).
    { intros a Ha. subst w1; simpl.
      destruct (decide (a0 = a)) as [->|Hna].
      - rewrite lookup_insert_eq. by eexists.
      - rewrite lookup_insert_ne by done. apply Halloc. by right. }
    exists w'. split; [done|]. split.
    + intros a Ha. destruct (decide (a ∈ delivered_to system rest)) as [Hr|Hr].
      * rewrite (Hin a Hr). subst w1; simpl.
        destruct (decide (a0 = a)) as [->|Hna].
        -- rewrite lookup_insert_eq, Hn0. simpl. by rewrite received_twice.
        -- by rewrite lookup_insert_ne.
      * rewrite (Hout a Hr). subst w1; simpl.
        apply elem_of_cons in Ha as [->|Ha]; [|done].
        by rewrite lookup_insert_eq, Hn0.
    + intros a Ha. apply not_elem_of_cons in Ha as [Hna Ha].
      rewrite (Hout a Ha). subst w1; simpl. by rewrite lookup_insert_ne.
Qed.

(** A node that is its own unflagged, registered neighbour never comes
    back from the call. *)
Lemma Propagate_loop_self self neighborID rest w :
  Sys.IsPartitioned system neighborID = false →
  Nodes system !! neighborID = Some self →
  Propagate_loop self (neighborID :: rest) update system w = Blocks.
Proof. intros Hp Hnb. simpl. rewrite Hp, Hnb. by rewrite decide_True. Qed.

End PropagationFacts.

Section ScenarioFacts.

Variable entropy : Type.
Variable sha256_Sum256 : string → list Z.
Variable ecdsa_Sign : entropy → ecdsa_PrivateKey → list Z → result (Z * Z).
Variable ecdsa_GenerateKey : entropy → result ecdsa_PrivateKey.

Lemma GetClockUpdate_content (n : Node) (now : Z) (rnd : entropy) :
  NodeID (GetClockUpdate entropy sha256_Sum256 ecdsa_Sign n now rnd) = ID n ∧
  Timestamp (GetClockUpdate entropy sha256_Sum256 ecdsa_Sign n now rnd) = now.
Proof.
  unfold GetClockUpdate. destruct (IsByzantine n); simpl; [done|].
  by destruct (SignClockUpdate _ _ _ _ _ _).
Qed.

(** The set-up returns the cluster [scenario_cluster] as soon as the seven
    key generations succeed. *)
Lemma SimulatePartition_setup_Returns (rnd : string → entropy)
    (keys : string → ecdsa_PrivateKey) :
  (∀ id, id ∈ ["A"; "B"; "C"; "D"; "E"; "F"; "G"] →
         ecdsa_GenerateKey (rnd id) = Ok (keys id)) →
  SimulatePartition_setup entropy ecdsa_GenerateKey rnd = Returns (scenario_cluster keys).
Proof.
  intros Hkeys.
  unfold SimulatePartition_setup, create, NewNode, GenerateKeyPair.
  rewrite (Hkeys "A"), (Hkeys "B"), (Hkeys "C"), (Hkeys "D"),
    (Hkeys "E"), (Hkeys "F"), (Hkeys "G") by set_solver.
  vm_compute. reflexivity.
Qed.

End ScenarioFacts.

Lemma PropagateClockUpdate_Returns (n : positive) (update : ClockUpdate)
    (system : System) (w : World) (node : Node) :
  heap w !! n = Some node →
  n ∉ delivered_to system (Neighbors node) →
  (∀ a, a ∈ delivered_to system (Neighbors node) → is_Some (heap w !! a)) →
  ∃ w', PropagateClockUpdate n update system w = Returns w' ∧
        (∀ neighborID a,
           neighborID ∈ Neighbors node → Nodes system !! neighborID = Some a →
           Sys.IsPartitioned system neighborID = false →
           heap w' !! a = (λ m, received m update) <$> heap w !! a) ∧
        (∀ a,
           (∀ neighborID,
              neighborID ∈ Neighbors node → Nodes system !! neighborID = Some a →
              Sys.IsPartitioned system neighborID = true) →
           heap w' !! a = heap w !! a).
Proof.
  intros Hn Hself Halloc. unfold PropagateClockUpdate, deref. rewrite Hn. simpl.
  destruct (Propagate_loop_Returns update system n (Neighbors node) w Hself Halloc)
    as (w' & Hrun & Hin & Hout).
  exists w'. split; [done|]. split.
  - intros nb a Hnb Ha Hp. apply Hin. apply elem_of_delivered_to. by exists nb.
  - intros a Ha. apply Hout. intros (nb & Hnb & Hp & Hreg)%elem_of_delivered_to.
    specialize (Ha nb Hnb Hreg). congruence.
Qed.

Lemma scenario_propagate_from_A (keys : string → ecdsa_PrivateKey)
    (partition : gmap string bool) (update : ClockUpdate) :
  NodeID update = "A" →
  Sys.IsPartitioned (with_partition keys partition) "B" = false →
  Sys.IsPartitioned (with_partition keys partition) "C" = false →
  Sys.IsPartitioned (with_partition keys partition) "D" = false →
  ∃ w', PropagateClockUpdate 1 update (with_partition keys partition)
          (world (scenario_cluster keys)) = Returns w' ∧
        clock_at w' 2 "A" = Some (Timestamp update) ∧
        clock_at w' 3 "A" = Some (Timestamp update) ∧
        clock_at w' 4 "A" = Some (Timestamp update) ∧
        heap w' !! 5%positive = heap (world (scenario_cluster keys)) !! 5%positive.
Proof.
  intros Hid HB HC HD.
  set (sys := with_partition keys partition) in *.
  set (w := world (scenario_cluster keys)).
  assert (delivered_to sys ["B"; "C"; "D"] = [2; 3; 4]%positive) as Hdel.
  { rewrite (delivered_to_cons_deliver sys "B" _ 2 HB eq_refl).
    rewrite (delivered_to_cons_deliver sys "C" _ 3 HC eq_refl).
    by rewrite (delivered_to_cons_deliver sys "D" _ 4 HD eq_refl). }
  destruct (PropagateClockUpdate_Returns 1 update sys w
              (scenario_node keys "A" false false ["B"; "C"; "D"]) eq_refl)
    as (w' & Hrun & Hin & Hout).
  { change (Neighbors _) with ["B"; "C"; "D"]. rewrite Hdel.
    rewrite !not_elem_of_cons. repeat split; [done..|apply not_elem_of_nil]. }
  { change (Neighbors _) with ["B"; "C"; "D"]. rewrite Hdel. intros a Ha.
    repeat (apply elem_of_cons in Ha as [->|Ha]; [by eexists|]).
    by apply elem_of_nil in Ha. }
  exists w'. split; [exact Hrun|].
  assert (∀ a id byz iso nbs,
            heap w !! a = Some (scenario_node keys id byz iso nbs) → byz = false →
            heap w' !! a = Some (received (scenario_node keys id byz iso nbs) update) →
            clock_at w' a "A" = Some (Timestamp update)) as Hclock.
  { intros a id byz iso nbs Ha -> Ha'. rewrite received_correct in Ha' by done.
    unfold clock_at. rewrite Ha'. simpl. rewrite Hid.
    by rewrite GetTimestamp_Update_eq. }
  split; [|split; [|split]].
  - eapply (Hclock 2%positive); [reflexivity|done|].
    by rewrite (Hin "B" 2%positive ltac:(simpl; set_solver) eq_refl HB).
  - eapply (Hclock 3%positive); [reflexivity|done|].
    by rewrite (Hin "C" 3%positive ltac:(simpl; set_solver) eq_refl HC).
  - eapply (Hclock 4%positive); [reflexivity|done|].
    by rewrite (Hin "D" 4%positive ltac:(simpl; set_solver) eq_refl HD).
  - apply Hout. intros nb Hnb Hreg. exfalso. simpl in Hnb.
    repeat (apply elem_of_cons in Hnb as [->|Hnb]; [by vm_compute in Hreg|]).
    by apply elem_of_nil in Hnb.
Qed.

(** A link is blocked for one sender exactly when it is blocked for every
    other sender. *)
Lemma link_partitioned_any_sender (system : System) (from from' to : string) :
  link_partitioned system from to = link_partitioned system from' to.
Proof. reflexivity. Qed.

(** A neighbour the loop skips is a neighbour whose flag is set (or one the
    registry does not know): nothing but the per-node table can stop a
    delivery to a registered node. *)
Lemma skipped_is_flagged (system : System) (neighborID : string) (a : positive) :
  Nodes system !! neighborID = Some a →
  delivered_to system [neighborID] = [] →
  Partition system !! neighborID = Some true.
Proof.
  intros Hreg. unfold delivered_to, Sys.IsPartitioned; simpl. rewrite Hreg.
  by destruct (Partition system !! neighborID) as [[]|].
Qed.

Lemma toy_setup :
  SimulatePartition_setup Z Toy.ecdsa_GenerateKey Toy.draws = Returns toy_cluster.
Proof. vm_compute. reflexivity. Qed.

(** C3, as the claim states it, fails. The partition table has one flag
    per node, and the loop tests the flag of the receiving neighbour only.
    With the links D→A, D→B and D→C partitioned and A→D open, an update
    produced at A and propagated reaches D but neither B nor C: their
    clocks still read [0] for A. *)
Lemma Propagate_scenario_misses_B_and_C :
  link_partitioned receivers_flagged "D" "A" = true ∧
  link_partitioned receivers_flagged "D" "B" = true ∧
  link_partitioned receivers_flagged "D" "C" = true ∧
  link_partitioned receivers_flagged "A" "D" = false ∧
  (∃ w', PropagateClockUpdate (nodeA toy_cluster) toy_update receivers_flagged
           (world toy_cluster) = Returns w' ∧
         clock_at w' (nodeB toy_cluster) "A" = Some 0 ∧
         clock_at w' (nodeC toy_cluster) "A" = Some 0 ∧
         clock_at w' (nodeD toy_cluster) "A" = Some 1700000000) ∧
  ¬ (∀ system' : System,
       Nodes system' = Nodes (system toy_cluster) →
       link_partitioned system' "D" "A" = true →
       link_partitioned system' "D" "B" = true →
       link_partitioned system' "D" "C" = true →
       link_partitioned system' "A" "D" = false →
       ∃ w', PropagateClockUpdate (nodeA toy_cluster) toy_update system'
               (world toy_cluster) = Returns w' ∧
             clock_at w' (nodeB toy_cluster) "A" = Some (Timestamp toy_update) ∧
             clock_at w' (nodeC toy_cluster) "A" = Some (Timestamp toy_update) ∧
             clock_at w' (nodeD toy_cluster) "A" = Some (Timestamp toy_update)).
Proof.
  split; [reflexivity|]. split; [reflexivity|]. split; [reflexivity|].
  split; [reflexivity|]. split.
  - eexists. split; [vm_compute; reflexivity|]. by vm_compute.
  - intros H.
    destruct (H receivers_flagged eq_refl eq_refl eq_refl eq_refl eq_refl)
      as (w' & Hrun & HB & _).
    vm_compute in Hrun. injection Hrun as <-. vm_compute in HB. discriminate HB.
Qed.

(** Flagging the sender D instead does not stop anything D sends, and
    stops what A sends to D. *)
Lemma Propagate_sender_flagged :
  (∃ w', PropagateClockUpdate (nodeA toy_cluster) toy_update sender_flagged
           (world toy_cluster) = Returns w' ∧
         clock_at w' (nodeD toy_cluster) "A" = Some 0) ∧
  (∃ w', PropagateClockUpdate (nodeD toy_cluster) (mkClockUpdate "D" 1700000001 "")
           sender_flagged (world toy_cluster) = Returns w' ∧
         clock_at w' (nodeA toy_cluster) "D" = Some 1700000001 ∧
         clock_at w' (nodeB toy_cluster) "D" = Some 1700000001 ∧
         clock_at w' (nodeC toy_cluster) "D" = Some 1700000001 ∧
         clock_at w' (nodeE toy_cluster) "D" = Some 1700000001).
Proof.
  split; (eexists; split; [vm_compute; reflexivity|by vm_compute]).
Qed.

(** C3 (amended): [propagate] skips delivery exactly for those neighbours of
    the sender that are themselves flagged in the membership's per-node
    partition table (whoever the sender is) or that are not registered, and
    hands the update to the receive entry point of every other neighbour;
    every node that is not such a neighbour is left as it was. In the
    topology of the simulation, under any partition table that flags none of
    B, C and D, an update produced at A and propagated by A reaches B, C and
    D, while E receives nothing. *)
Theorem PropagateClockUpdate_per_node_partition :
  (∀ (n : positive) (update : ClockUpdate) (system : System) (w : World) (node : Node),
     heap w !! n = Some node →
     n ∉ delivered_to system (Neighbors node) →
     (∀ a, a ∈ delivered_to system (Neighbors node) → is_Some (heap w !! a)) →
     ∃ w', PropagateClockUpdate n update system w = Returns w' ∧
           (∀ neighborID a,
              neighborID ∈ Neighbors node → Nodes system !! neighborID = Some a →
              Sys.IsPartitioned system neighborID = false →
              heap w' !! a = (λ m, received m update) <$> heap w !! a) ∧
           (∀ a,
              (∀ neighborID,
                 neighborID ∈ Neighbors node → Nodes system !! neighborID = Some a →
                 Sys.IsPartitioned system neighborID = true) →
              heap w' !! a = heap w !! a)) ∧
  (∀ (entropy : Type) (sha256_Sum256 : string → list Z)
     (ecdsa_Sign : entropy → ecdsa_PrivateKey → list Z → result (Z * Z))
     (ecdsa_GenerateKey : entropy → result ecdsa_PrivateKey)
     (rnd : string → entropy) (keys : string → ecdsa_PrivateKey)
     (partition : gmap string bool) (now : Z) (r : entropy),
     (∀ id, id ∈ ["A"; "B"; "C"; "D"; "E"; "F"; "G"] →
            ecdsa_GenerateKey (rnd id) = Ok (keys id)) →
     partition !! "B" ≠ Some true →
     partition !! "C" ≠ Some true →
     partition !! "D" ≠ Some true →
     ∃ c a w',
       SimulatePartition_setup entropy ecdsa_GenerateKey rnd = Returns c ∧
       heap (world c) !! nodeA c = Some a ∧
       PropagateClockUpdate (nodeA c)
         (GetClockUpdate entropy sha256_Sum256 ecdsa_Sign a now r)
         (mkSystem (Nodes (system c)) (Leader (system c)) partition) (world c)
       = Returns w' ∧
       clock_at w' (nodeB c) "A" = Some now ∧
       clock_at w' (nodeC c) "A" = Some now ∧
       clock_at w' (nodeD c) "A" = Some now ∧
       heap w' !! nodeE c = heap (world c) !! nodeE c).
Proof.
  split; [apply PropagateClockUpdate_Returns|].
  intros entropy sha sign genkey rnd keys partition now r Hkeys HB HC HD.
  assert (∀ id, partition !! id ≠ Some true →
                Sys.IsPartitioned (with_partition keys partition) id = false) as Hflag.
  { intros id Hid. unfold Sys.IsPartitioned, with_partition; simpl.
    destruct (partition !! id) as [[]|]; done. }
  set (a := scenario_node keys "A" false false ["B"; "C"; "D"]).
  destruct (GetClockUpdate_content entropy sha sign a now r) as [Hid Hts].
  destruct (scenario_propagate_from_A keys partition
              (GetClockUpdate entropy sha sign a now r) Hid
              (Hflag _ HB) (Hflag _ HC) (Hflag _ HD))
    as (w' & Hrun & H2 & H3 & H4 & H5).
  exists (scenario_cluster keys), a, w'.
  rewrite Hts in H2, H3, H4.
  split; [by apply SimulatePartition_setup_Returns|]. split; [reflexivity|].
  split; [exact Hrun|]. done.
Qed.

Lemma PropagateClockUpdate_per_node_partition_witness :
  (∀ id, id ∈ ["A"; "B"; "C"; "D"; "E"; "F"; "G"] →
         Toy.ecdsa_GenerateKey (Toy.draws id) = Ok (Toy.keys id)) ∧
  ({["E" := true]} : gmap string bool) !! "B" ≠ Some true ∧
  ∃ c a w',
    SimulatePartition_setup Z Toy.ecdsa_GenerateKey Toy.draws = Returns c ∧
    heap (world c) !! nodeA c = Some a ∧
    PropagateClockUpdate (nodeA c)
      (GetClockUpdate Z Toy.sha256_Sum256 Toy.ecdsa_Sign a 1700000000 300)
      (mkSystem (Nodes (system c)) (Leader (system c)) {["E" := true]}) (world c)
    = Returns w' ∧
    clock_at w' (nodeB c) "A" = Some 1700000000 ∧
    clock_at w' (nodeC c) "A" = Some 1700000000 ∧
    clock_at w' (nodeD c) "A" = Some 1700000000 ∧
    heap w' !! nodeE c = heap (world c) !! nodeE c.
Proof.
  assert (∀ id, id ∈ ["A"; "B"; "C"; "D"; "E"; "F"; "G"] →
                Toy.ecdsa_GenerateKey (Toy.draws id) = Ok (Toy.keys id)) as Hkeys.
  { intros id Hin.
    repeat (apply elem_of_cons in Hin as [->|Hin]; [reflexivity|]).
    by apply elem_of_nil in Hin. }
  split; [exact Hkeys|]. split; [by vm_compute|].
  apply (proj2 PropagateClockUpdate_per_node_partition Z Toy.sha256_Sum256
           Toy.ecdsa_Sign Toy.ecdsa_GenerateKey Toy.draws Toy.keys {["E" := true]}
           1700000000 300 Hkeys); by vm_compute.
Defined.

(** * Further properties of the program *)

(** ** The clock as a store *)

(** The entries a run of the first loop can start with: any entry of the
    map can be visited first. *)
Lemma range_order_first (m : gmap string Z) (k : string) (ts : Z) :
  m !! k = Some ts → VC.range_order m ((k, ts) :: map_to_list (delete k m)).
Proof. intros H. unfold VC.range_order. by apply map_to_list_delete. Qed.

Lemma first_loop_all_equal entries other m :
  (∀ k ts, (k, ts) ∈ entries → ts = VC.GetTimestamp other k) →
  ∃ m', VC.Compare_first_loop entries other m = VC.Fallthrough m'.
Proof.
  revert m. induction entries as [|[k ts] rest IH]; intros m Hall; simpl; [by eexists|].
  rewrite <- (Hall k ts) by left.
  destruct (Z.gtb_spec ts ts); [lia|]. destruct (Z.ltb_spec ts ts); [lia|].
  apply IH. intros k' ts' Hin. apply Hall. by right.
Qed.

(** Every outcome that [Compare_cases] allows is the result of some run. *)
Lemma Compare_cases_complete (vc other : VectorClock) (r : Z) :
  (r = -1 ∧ ∃ k, k ∈ dom (Timestamps vc) ∧ VC.GetTimestamp vc k < VC.GetTimestamp other k) ∨
  (r = 1 ∧ ∃ k, k ∈ dom (Timestamps vc) ∧ VC.GetTimestamp other k < VC.GetTimestamp vc k) ∨
  (r = 0 ∧ ∀ k, k ∈ dom (Timestamps vc) → VC.GetTimestamp vc k = VC.GetTimestamp other k) →
  VC.Compare vc other r.
Proof.
  intros [[-> (k & Hk & Hlt)] | [[-> (k & Hk & Hlt)] | [-> Hall]]].
  - apply elem_of_dom in Hk as [ts Hk]. rewrite (GetTimestamp_Some _ _ _ Hk) in Hlt.
    pose proof (VC.Compare_run vc other _ (map_to_list (Timestamps other))
                  (range_order_first _ _ _ Hk) ltac:(unfold VC.range_order; reflexivity)) as H.
    unfold VC.Compare_in_order in H; simpl in H.
    destruct (Z.gtb_spec (VC.GetTimestamp other k) ts); [done|lia].
  - apply elem_of_dom in Hk as [ts Hk]. rewrite (GetTimestamp_Some _ _ _ Hk) in Hlt.
    pose proof (VC.Compare_run vc other _ (map_to_list (Timestamps other))
                  (range_order_first _ _ _ Hk) ltac:(unfold VC.range_order; reflexivity)) as H.
    unfold VC.Compare_in_order in H; simpl in H.
    destruct (Z.gtb_spec (VC.GetTimestamp other k) ts); [lia|].
    destruct (Z.ltb_spec (VC.GetTimestamp other k) ts); [done|lia].
  - pose proof (Compare_total vc other) as H.
    unfold VC.Compare_exec, VC.Compare_in_order in H.
    destruct (first_loop_all_equal (map_to_list (Timestamps vc)) other 0) as [m' Hm'].
    { intros k ts Hin%elem_of_map_to_list.
      rewrite <- (Hall k) by (apply elem_of_dom; by eexists).
      by rewrite (GetTimestamp_Some _ _ _ Hin). }
    by rewrite Hm' in H.
Qed.

(** X1: reading back what [Update] wrote. After [Update(n, t)] the clock
    reads [t] for [n] and reads what it read before for every other node; a
    new clock reads [0] for every node. *)
Theorem Update_GetTimestamp_roundtrip (vc : VectorClock) (n k : string) (t : Z) :
  VC.GetTimestamp (VC.Update vc n t) k
  = (if decide (k = n) then t else VC.GetTimestamp vc k) ∧
  VC.GetTimestamp VC.NewVectorClock k = 0 ∧
  dom (Timestamps (VC.Update vc n t)) = {[n]} ∪ dom (Timestamps vc).
Proof.
  split; [|split].
  - destruct (decide (k = n)) as [->|Hne].
    + apply GetTimestamp_Update_eq.
    + by apply GetTimestamp_Update_ne.
  - reflexivity.
  - unfold VC.Update; simpl. apply dom_insert_L.
Qed.

(** X2: updates for different nodes commute, on a clock and on a
    non-Byzantine or Byzantine receiver alike: the order in which updates of
    two different nodes arrive does not matter. *)
Theorem Update_commute (vc : VectorClock) (node : Node) (u u' : ClockUpdate) :
  NodeID u ≠ NodeID u' →
  VC.Update (VC.Update vc (NodeID u) (Timestamp u)) (NodeID u') (Timestamp u')
  = VC.Update (VC.Update vc (NodeID u') (Timestamp u')) (NodeID u) (Timestamp u) ∧
  received (received node u) u' = received (received node u') u.
Proof.
  intros Hne.
  assert (∀ c, VC.Update (VC.Update c (NodeID u) (Timestamp u)) (NodeID u') (Timestamp u')
               = VC.Update (VC.Update c (NodeID u') (Timestamp u')) (NodeID u) (Timestamp u))
    as Hc.
  { intros c. unfold VC.Update; simpl. f_equal. by apply insert_insert_ne. }
  split; [apply Hc|].
  destruct (IsByzantine node) eqn:Hb.
  - by rewrite !(received_byzantine node) by done.
  - rewrite (received_correct node u Hb), (received_correct node u' Hb).
    rewrite !received_correct by done. simpl. by rewrite Hc.
Qed.

Lemma Update_commute_witness :
  "A" ≠ "B" ∧
  VC.Update (VC.Update VC.NewVectorClock "A" 3) "B" 4
  = VC.Update (VC.Update VC.NewVectorClock "B" 4) "A" 3.
Proof.
  split; [discriminate|].
  exact (proj1 (Update_commute VC.NewVectorClock honest_node
                  (mkClockUpdate "A" 3 "") (mkClockUpdate "B" 4 "")
                  ltac:(discriminate))).
Defined.

(** X3: a clock compared with itself gives [0] in every run, and [0] is
    indeed returned. *)
Theorem Compare_reflexive (vc : VectorClock) (r : Z) :
  VC.Compare vc vc r ↔ r = 0.
Proof.
  split.
  - intros H. destruct (Compare_cases _ _ _ H) as [[_ (k & _ & Hk)]|[[_ (k & _ & Hk)]|[-> _]]];
      [lia|lia|done].
  - intros ->. apply Compare_cases_complete. right; right. done.
Qed.

(** X4: the results [Compare] can return, over all visiting orders. It
    can return [-1] exactly when some entry of the receiver is below the
    other clock's, [1] exactly when some entry of the receiver is above it,
    and [0] exactly when every entry of the receiver equals the other
    clock's (absent keys of the other clock read as 0). When entries of
    both kinds exist, both [-1] and [1] are possible: the result then
    depends on the order in which the map is visited. *)
Theorem Compare_outcomes (vc other : VectorClock) (r : Z) :
  VC.Compare vc other r ↔
  (r = -1 ∧ ∃ k, k ∈ dom (Timestamps vc) ∧ VC.GetTimestamp vc k < VC.GetTimestamp other k) ∨
  (r = 1 ∧ ∃ k, k ∈ dom (Timestamps vc) ∧ VC.GetTimestamp other k < VC.GetTimestamp vc k) ∨
  (r = 0 ∧ ∀ k, k ∈ dom (Timestamps vc) → VC.GetTimestamp vc k = VC.GetTimestamp other k).
Proof. split; [apply Compare_cases|apply Compare_cases_complete]. Qed.

(** X5: advancing one entry and comparing. If [t] is above what the clock
    reads for [n], the advanced clock compares as [1] against the old one in
    every run. The old clock compares as [-1] against the advanced one when
    it already held an entry for [n], and as [0] when it did not: an entry
    the receiver does not hold is not looked at. *)
Theorem Compare_after_Update (vc : VectorClock) (n : string) (t : Z) :
  VC.GetTimestamp vc n < t →
  (∀ r, VC.Compare (VC.Update vc n t) vc r ↔ r = 1) ∧
  (n ∈ dom (Timestamps vc) → ∀ r, VC.Compare vc (VC.Update vc n t) r ↔ r = -1) ∧
  (n ∉ dom (Timestamps vc) → ∀ r, VC.Compare vc (VC.Update vc n t) r ↔ r = 0).
Proof.
  intros Hlt.
  assert (∀ k, VC.GetTimestamp (VC.Update vc n t) k
               = if decide (k = n) then t else VC.GetTimestamp vc k) as Hget.
  { intros k. destruct (decide (k = n)) as [->|Hne].
    - apply GetTimestamp_Update_eq.
    - by apply GetTimestamp_Update_ne. }
  assert (n ∈ dom (Timestamps (VC.Update vc n t))) as Hn.
  { unfold VC.Update; simpl. rewrite dom_insert_L. set_solver. }
  split; [|split].
  - intros r. split.
    + intros H. destruct (Compare_cases _ _ _ H) as [[_ (k & _ & Hk)]|[[-> _]|[_ Hall]]].
      * rewrite Hget in Hk. destruct (decide (k = n)) as [->|]; lia.
      * done.
      * specialize (Hall n Hn). rewrite Hget, decide_True in Hall by done. lia.
    + intros ->. apply Compare_cases_complete. right; left. split; [done|].
      exists n. split; [done|]. rewrite Hget, decide_True by done. lia.
  - intros Hin r. split.
    + intros H. destruct (Compare_cases _ _ _ H) as [[-> _]|[[_ (k & _ & Hk)]|[_ Hall]]].
      * done.
      * rewrite Hget in Hk. destruct (decide (k = n)) as [->|]; lia.
      * specialize (Hall n Hin). rewrite Hget, decide_True in Hall by done. lia.
    + intros ->. apply Compare_cases_complete. left. split; [done|].
      exists n. split; [done|]. rewrite Hget, decide_True by done. lia.
  - intros Hout r. split.
    + intros H. destruct (Compare_cases _ _ _ H) as [[_ (k & Hd & Hk)]|[[_ (k & Hd & Hk)]|[-> _]]].
      * rewrite Hget in Hk. destruct (decide (k = n)) as [->|]; [done|lia].
      * rewrite Hget in Hk. destruct (decide (k = n)) as [->|]; [done|lia].
      * done.
    + intros ->. apply Compare_cases_complete. right; right. split; [done|].
      intros k Hk. rewrite Hget. destruct (decide (k = n)) as [->|]; done.
Qed.

Lemma Compare_after_Update_witness :
  VC.GetTimestamp test_vc1 "A" < 15 ∧
  (∀ r, VC.Compare test_vc1 (VC.Update test_vc1 "A" 15) r ↔ r = -1).
Proof.
  assert (VC.GetTimestamp test_vc1 "A" < 15) as Hlt by (by vm_compute).
  split; [exact Hlt|].
  apply (proj1 (proj2 (Compare_after_Update test_vc1 "A" 15 Hlt))).
  unfold test_vc1, clock_of; simpl. rewrite !dom_insert_L. set_solver.
Defined.

(** X6: [Compare] looks at the other clock only under the keys of the
    receiver. Two clocks that read the same under these keys cannot be told
    apart, whatever else they hold; in particular an empty clock compares as
    [0] against every clock. *)
Theorem Compare_ignores_foreign_keys (vc other other' : VectorClock) (r : Z) :
  (∀ k, k ∈ dom (Timestamps vc) → VC.GetTimestamp other k = VC.GetTimestamp other' k) →
  (VC.Compare vc other r ↔ VC.Compare vc other' r) ∧
  (VC.Compare VC.NewVectorClock other r ↔ r = 0).
Proof.
  intros Hsame. split.
  - assert (∀ o o', (∀ k, k ∈ dom (Timestamps vc) →
                          VC.GetTimestamp o k = VC.GetTimestamp o' k) →
                    VC.Compare vc o r → VC.Compare vc o' r) as Hdir.
    { intros o o' Ho H. apply Compare_cases_complete.
      destruct (Compare_cases _ _ _ H) as [[-> (k & Hd & Hk)]|[[-> (k & Hd & Hk)]|[-> Hall]]].
      - left. split; [done|]. exists k. split; [done|]. by rewrite <- Ho.
      - right; left. split; [done|]. exists k. split; [done|]. by rewrite <- Ho.
      - right; right. split; [done|]. intros k Hd. rewrite <- Ho by done. by apply Hall. }
    split; apply Hdir; [done|]. intros k Hk. symmetry. by apply Hsame.
  - split.
    + intros H. destruct (Compare_cases _ _ _ H) as [[_ (k & Hd & _)]|[[_ (k & Hd & _)]|[-> _]]];
        [|  |done]; by apply elem_of_dom in Hd as [? ?].
    + intros ->. apply Compare_cases_complete. right; right. split; [done|].
      intros k Hd. by apply elem_of_dom in Hd as [? ?].
Qed.

Lemma Compare_ignores_foreign_keys_witness :
  (∀ k, k ∈ dom (Timestamps only_A) →
        VC.GetTimestamp VC.NewVectorClock k = VC.GetTimestamp only_B k) ∧
  (VC.Compare only_A VC.NewVectorClock 1 ↔ VC.Compare only_A only_B 1).
Proof.
  assert (∀ k, k ∈ dom (Timestamps only_A) →
               VC.GetTimestamp VC.NewVectorClock k = VC.GetTimestamp only_B k) as H.
  { intros k Hk. unfold only_A, clock_of in Hk; simpl in Hk.
    rewrite dom_insert_L, dom_empty_L in Hk.
    apply elem_of_union in Hk as [Hk|Hk]; [|by apply elem_of_empty in Hk].
    apply elem_of_singleton in Hk. by subst. }
  split; [exact H|].
  exact (proj1 (Compare_ignores_foreign_keys only_A VC.NewVectorClock only_B 1 H)).
Defined.

(** ** The signed message and the signature *)

Lemma string_of_uint_no_colon (d : Decimal.uint) :
  has_colon (NilEmpty.string_of_uint d) = false.
Proof. induction d; simpl; auto. Qed.

Lemma Sprintf_d_no_colon (n : Z) : has_colon (Sprintf_d n) = false.
Proof.
  unfold Sprintf_d, NilZero.string_of_int, NilZero.string_of_uint.
  destruct (Z.to_int n) as [d|d]; destruct d; simpl; auto using string_of_uint_no_colon.
Qed.

Lemma Sprintf_d_inj (n n' : Z) : Sprintf_d n = Sprintf_d n' → n = n'.
Proof.
  assert (∀ z, NilZero.int_of_string (Sprintf_d z) = Some (Z.to_int z)) as Hparse.
  { intros z. unfold Sprintf_d. apply NilZero.isi.
    - destruct z; simpl; try discriminate.
      intros [= H]. by apply DecimalPos.Unsigned.to_uint_nonnil in H.
    - destruct z; simpl; try discriminate.
      intros [= H]. by apply DecimalPos.Unsigned.to_uint_nonnil in H. }
  intros H. apply DecimalZ.to_int_inj.
  pose proof (Hparse n) as Hn. rewrite H, Hparse in Hn. by injection Hn.
Qed.

Lemma has_colon_app_colon (a b : string) : has_colon (a +:+ String ":" b) = true.
Proof.
  induction a as [|c a IH]; simpl; [done|].
  by destruct (Ascii.eqb c ":"%char).
Qed.

(** A string splits in one way only at its last colon. *)
Lemma split_last_colon (a b x y : string) :
  has_colon x = false → has_colon y = false →
  a +:+ ":" +:+ x = b +:+ ":" +:+ y → a = b ∧ x = y.
Proof.
  intros Hx Hy. revert b.
  induction a as [|c a IH]; intros [|c' b];
    unfold String.append; fold String.append.
  - by intros [= ->].
  - intros [= <- ->]. by rewrite has_colon_app_colon in Hx.
  - intros [= -> <-]. by rewrite has_colon_app_colon in Hy.
  - intros [= -> H]. destruct (IH _ H) as [-> ->]. done.
Qed.

Lemma signature_format_nonempty (a b : string) : a +:+ ":" +:+ b ≠ "".
Proof. by destruct a. Qed.

(** X7: the message that is signed determines the update's content. Two
    updates give the same message [NodeID:Timestamp] exactly when they have
    the same [NodeID] and the same [Timestamp], also when a node ID itself
    contains colons or digits. *)
Theorem signed_message_inj (u1 u2 : ClockUpdate) :
  signed_message u1 = signed_message u2 ↔
  NodeID u1 = NodeID u2 ∧ Timestamp u1 = Timestamp u2.
Proof.
  unfold signed_message. split.
  - intros H. apply split_last_colon in H as [Hid Hts]; auto using Sprintf_d_no_colon.
    split; [done|]. by apply Sprintf_d_inj.
  - by intros [-> ->].
Qed.

Section SignatureFacts.

Variable entropy : Type.
Variable sha256_Sum256 : string → list Z.
Variable ecdsa_Sign : entropy → ecdsa_PrivateKey → list Z → result (Z * Z).

(** X8: when the update of [GetClockUpdate] is unsigned. Its [Signature]
    is empty exactly when the node is Byzantine or [SignClockUpdate] returned
    an error; a signature that was computed is never the empty string. *)
Theorem GetClockUpdate_unsigned_iff (n : Node) (now : Z) (rnd : entropy) :
  Signature (GetClockUpdate entropy sha256_Sum256 ecdsa_Sign n now rnd) = "" ↔
  IsByzantine n = true ∨
  ∃ err, SignClockUpdate entropy sha256_Sum256 ecdsa_Sign rnd (PrivateKey n)
           (mkClockUpdate (ID n) now "") = Err err.
Proof.
  unfold GetClockUpdate. destruct (IsByzantine n); simpl.
  - split; [by left|done].
  - unfold SignClockUpdate.
    destruct (ecdsa_Sign rnd (PrivateKey n) _) as [[r s]|err]; simpl.
    + split.
      * intros H. by apply signature_format_nonempty in H.
      * intros [|[err [=]]]; done.
    + split; [|done]. intros _. right. by exists err.
Qed.

(** X9: an unsigned update is applied. The update a Byzantine node
    produces carries no signature; [VerifyClockUpdate] accepts it, and a
    non-Byzantine receiver applies it without printing anything: it returns
    [true] and afterwards reads the sender's timestamp under the sender's
    ID. *)
Theorem byzantine_update_is_applied (sender receiver : Node) (now : Z) (rnd : entropy) :
  IsByzantine sender = true →
  IsByzantine receiver = false →
  let update := GetClockUpdate entropy sha256_Sum256 ecdsa_Sign sender now rnd in
  update = mkClockUpdate (ID sender) now "" ∧
  VerifyClockUpdate sha256_Sum256 (PublicKey sender) update = true ∧
  VerifyAndApplyClockUpdate receiver update = (true, received receiver update, []) ∧
  VC.GetTimestamp (Node_VectorClock (received receiver update)) (ID sender) = now.
Proof.
  intros Hs Hr. simpl.
  assert (GetClockUpdate entropy sha256_Sum256 ecdsa_Sign sender now rnd
          = mkClockUpdate (ID sender) now "") as ->.
  { unfold GetClockUpdate. by rewrite Hs. }
  split; [done|]. split; [done|]. split.
  - unfold received, VerifyAndApplyClockUpdate. rewrite Hr. reflexivity.
  - rewrite received_correct by done. simpl. apply GetTimestamp_Update_eq.
Qed.

End SignatureFacts.

Lemma byzantine_update_is_applied_witness :
  IsByzantine byzantine_node = true ∧ IsByzantine honest_node = false ∧
  VC.GetTimestamp
    (Node_VectorClock
       (received honest_node
          (GetClockUpdate Z Toy.sha256_Sum256 Toy.ecdsa_Sign byzantine_node 99 7))) "F"
  = 99.
Proof.
  split; [reflexivity|]. split; [reflexivity|].
  exact (proj2 (proj2 (proj2
    (byzantine_update_is_applied Z Toy.sha256_Sum256 Toy.ecdsa_Sign
       byzantine_node honest_node 99 7 eq_refl eq_refl)))).
Defined.

(** X10: what a delivery leaves alone. [VerifyAndApplyClockUpdate] changes
    nothing of the receiver but its clock, and of the clock nothing but the
    entry of [update.NodeID]; no check ties that ID to a registered node, a
    neighbour, or the receiver itself. *)
Theorem received_frame (n : Node) (update : ClockUpdate) (k : string) :
  ID (received n update) = ID n ∧
  PrivateKey (received n update) = PrivateKey n ∧
  PublicKey (received n update) = PublicKey n ∧
  IsByzantine (received n update) = IsByzantine n ∧
  IsIsolated (received n update) = IsIsolated n ∧
  Neighbors (received n update) = Neighbors n ∧
  (k ≠ NodeID update →
   VC.GetTimestamp (Node_VectorClock (received n update)) k
   = VC.GetTimestamp (Node_VectorClock n) k).
Proof.
  destruct (IsByzantine n) eqn:Hb.
  - rewrite received_byzantine by done. by rewrite Hb.
  - rewrite received_correct by done. simpl. repeat split; try done.
    intros Hne. by apply GetTimestamp_Update_ne.
Qed.

Lemma received_frame_witness :
  "B" ≠ NodeID (mkClockUpdate "A" 5 "") ∧
  VC.GetTimestamp (Node_VectorClock (received honest_node (mkClockUpdate "A" 5 ""))) "B"
  = VC.GetTimestamp (Node_VectorClock honest_node) "B".
Proof.
  split; [discriminate|].
  apply (received_frame honest_node (mkClockUpdate "A" 5 "") "B"). discriminate.
Defined.

(** ** Creating and registering nodes *)

(** X11: [NewNode] allocates. When the key generation fails, [NewNode]
    returns the error and leaves the world as it was. Otherwise it returns
    an address that was free, at which the new node now lives with the given
    ID and flags, an empty clock, no neighbours, and the public key of its
    private key; every node that existed before is untouched and nothing is
    printed. *)
Theorem NewNode_allocates (entropy : Type)
    (ecdsa_GenerateKey : entropy → result ecdsa_PrivateKey) (rnd : entropy)
    (id : string) (isByzantine isIsolated : bool) (w : World) :
  match ecdsa_GenerateKey rnd with
  | Err err => NewNode entropy ecdsa_GenerateKey rnd id isByzantine isIsolated w = (Err err, w)
  | Ok privateKey =>
      ∃ p w',
        NewNode entropy ecdsa_GenerateKey rnd id isByzantine isIsolated w = (Ok p, w') ∧
        heap w !! p = None ∧
        heap w' !! p = Some (mkNode id VC.NewVectorClock privateKey (Public privateKey)
                               isByzantine isIsolated []) ∧
        (∀ q, q ≠ p → heap w' !! q = heap w !! q) ∧
        stdout w' = stdout w
  end.
Proof.
  unfold NewNode, GenerateKeyPair.
  destruct (ecdsa_GenerateKey rnd) as [privateKey|err]; [|done].
  eexists _, _. split; [reflexivity|]. simpl. split; [|split; [|split]].
  - apply not_elem_of_dom, is_fresh.
  - apply lookup_insert_eq.
  - intros q Hq. by apply lookup_insert_ne.
  - done.
Qed.

Lemma AddNode_Returns (s : System) (node : positive) (w : World) (n : Node) :
  heap w !! node = Some n →
  Sys.AddNode s node w
  = Returns (mkSystem (<[ID n := node]> (Nodes s)) (Leader s) (Partition s)).
Proof. intros H. unfold Sys.AddNode, deref. by rewrite H. Qed.

(** Two registrations commute unless they are of different nodes under one
    ID. *)
Lemma AddNode_swap (s : System) (x y : positive) (w : World) (nx ny : Node) :
  heap w !! x = Some nx → heap w !! y = Some ny →
  (ID nx = ID ny → x = y) →
  AddNodes s [x; y] w = AddNodes s [y; x] w.
Proof.
  intros Hx Hy Hid. simpl.
  rewrite (AddNode_Returns _ _ _ _ Hx), (AddNode_Returns _ _ _ _ Hy). simpl.
  rewrite (AddNode_Returns _ _ _ _ Hx), (AddNode_Returns _ _ _ _ Hy). simpl.
  destruct (decide (ID nx = ID ny)) as [Heq|Hne].
  - specialize (Hid Heq). subst y. by simplify_eq.
  - by rewrite insert_insert_ne.
Qed.

Lemma AddNodes_app (s : System) (l1 l2 : list positive) (w : World) :
  AddNodes s (l1 ++ l2) w = (do s' <- AddNodes s l1 w; AddNodes s' l2 w).
Proof.
  revert s. induction l1 as [|x l1 IH]; intros s; simpl; [done|].
  destruct (Sys.AddNode s x w); simpl; auto.
Qed.

Lemma AddNodes_Permutation (w : World) (l l' : list positive) :
  l ≡ₚ l' →
  (∀ p, p ∈ l → is_Some (heap w !! p)) →
  (∀ p q np nq, p ∈ l → q ∈ l → heap w !! p = Some np → heap w !! q = Some nq →
                ID np = ID nq → p = q) →
  ∀ s, AddNodes s l w = AddNodes s l' w.
Proof.
  induction 1 as [|x l l' Hp IH|x y l|l l' l'' Hp1 IH1 Hp2 IH2]; intros Halloc Hids s.
  - done.
  - simpl. destruct (Sys.AddNode s x w) as [s'| |]; simpl; [|done..].
    apply IH.
    + intros p Hin. apply Halloc. by right.
    + intros p q np nq Hin Hq. apply Hids; by right.
  - destruct (Halloc x ltac:(right; left)) as [nx Hx].
    destruct (Halloc y ltac:(left)) as [ny Hy].
    change (y :: x :: l) with ([y; x] ++ l). change (x :: y :: l) with ([x; y] ++ l).
    rewrite !AddNodes_app.
    rewrite (AddNode_swap s y x w ny nx Hy Hx); [done|].
    intros Heq. eapply Hids; [left|right; left|done..].
  - rewrite IH1 by done. apply IH2.
    + intros p Hin. apply Halloc. by rewrite Hp1.
    + intros p q np nq Hin Hq. apply Hids; by rewrite Hp1.
Qed.

Lemma AddNodes_Returns (w : World) (l : list positive) :
  (∀ p, p ∈ l → is_Some (heap w !! p)) →
  ∀ s, ∃ s', AddNodes s l w = Returns s' ∧
             Leader s' = Leader s ∧ Partition s' = Partition s.
Proof.
  induction l as [|x l IH]; intros Halloc s; simpl; [by eexists|].
  destruct (Halloc x ltac:(left)) as [nx Hx].
  rewrite (AddNode_Returns _ _ _ _ Hx). simpl.
  destruct (IH ltac:(intros p Hin; apply Halloc; by right)
              (mkSystem (<[ID nx := x]> (Nodes s)) (Leader s) (Partition s)))
    as (s' & Hs' & Hl & Hp).
  exists s'. done.
Qed.

(** X12: the order of registration does not matter. When the nodes to add
    exist and no two different ones share an ID, adding them in any two
    orders returns, and returns the same system: the unspecified order of
    [for _, node := range nodes { system.AddNode(node) }] cannot be
    observed. *)
Theorem AddNodes_order_irrelevant (s : System) (w : World) (l l' : list positive) :
  l ≡ₚ l' →
  (∀ p, p ∈ l → is_Some (heap w !! p)) →
  (∀ p q np nq, p ∈ l → q ∈ l → heap w !! p = Some np → heap w !! q = Some nq →
                ID np = ID nq → p = q) →
  ∃ s', AddNodes s l w = Returns s' ∧ AddNodes s l' w = Returns s'.
Proof.
  intros Hp Halloc Hids.
  destruct (AddNodes_Returns w l Halloc s) as (s' & Hs' & _).
  exists s'. split; [done|]. by rewrite <- (AddNodes_Permutation w l l' Hp Halloc Hids).
Qed.

Lemma AddNodes_order_irrelevant_witness :
  [1; 2; 3]%positive ≡ₚ [3; 1; 2]%positive ∧
  ∃ s', AddNodes Sys.NewSystem [1; 2; 3]%positive (world toy_cluster) = Returns s' ∧
        AddNodes Sys.NewSystem [3; 1; 2]%positive (world toy_cluster) = Returns s'.
Proof.
  assert ([1; 2; 3]%positive ≡ₚ [3; 1; 2]%positive) as Hp.
  { change [3; 1; 2]%positive with ([3%positive] ++ [1; 2]%positive).
    change [1; 2; 3]%positive with ([1; 2]%positive ++ [3%positive]).
    apply Permutation_app_comm. }
  split; [exact Hp|].
  apply (AddNodes_order_irrelevant Sys.NewSystem (world toy_cluster) _ _ Hp).
  - intros p Hin.
    repeat (apply elem_of_cons in Hin as [->|Hin]; [by eexists|]).
    by apply elem_of_nil in Hin.
  - intros p q np nq Hin Hq Hnp Hnq Hid.
    repeat (apply elem_of_cons in Hin as [->|Hin];
            [repeat (apply elem_of_cons in Hq as [->|Hq];
                     [first [reflexivity
                            |vm_compute in Hnp, Hnq; injection Hnp as <-;
                             injection Hnq as <-; discriminate Hid]|]);
             by apply elem_of_nil in Hq|]).
    by apply elem_of_nil in Hin.
Defined.

(** X13: the membership tables. [IsPartitioned] reads back the last
    [SetPartition] for an ID and is [false] for an ID never set;
    [GetLeader] reads back the last [SetLeader]. Neither setter looks at the
    registry: both accept IDs of nodes that were never added, and each
    leaves the other table and the registry as they were. *)
Theorem membership_tables (s : System) (id id' leaderID : string) (b : bool) :
  Sys.IsPartitioned (Sys.SetPartition s id b) id'
  = (if decide (id' = id) then b else Sys.IsPartitioned s id') ∧
  Sys.IsPartitioned Sys.NewSystem id = false ∧
  Sys.GetLeader (Sys.SetLeader s leaderID) = leaderID ∧
  Sys.GetLeader (Sys.SetPartition s id b) = Sys.GetLeader s ∧
  Sys.IsPartitioned (Sys.SetLeader s leaderID) id = Sys.IsPartitioned s id ∧
  Nodes (Sys.SetPartition s id b) = Nodes s ∧
  Nodes (Sys.SetLeader s leaderID) = Nodes s.
Proof.
  repeat split.
  unfold Sys.IsPartitioned, Sys.SetPartition; simpl.
  destruct (decide (id' = id)) as [->|Hne].
  - by rewrite lookup_insert_eq.
  - by rewrite lookup_insert_ne.
Qed.

(** ** Propagation, continued *)

(** What a returning run of the loop has done to the world: each node is
    as it was or as one delivery leaves it, the sender is as it was, and the
    output has only grown. *)
Lemma Propagate_loop_inv (update : ClockUpdate) (system : System) (self : positive)
    (neighbors : list string) (w w' : World) :
  Propagate_loop self neighbors update system w = Returns w' →
  (∀ p, heap w' !! p = heap w !! p ∨
        heap w' !! p = (λ m, received m update) <$> heap w !! p) ∧
  heap w' !! self = heap w !! self ∧
  stdout w `prefix_of` stdout w'.
Proof.
  revert w. induction neighbors as [|nb rest IH]; intros w; simpl.
  - intros [= ->]. split; [by left|]. done.
  - destruct (Sys.IsPartitioned system nb); [apply IH|].
    destruct (Nodes system !! nb) as [a0|]; [|apply IH].
    destruct (decide (a0 = self)) as [->|Hne]; [done|].
    unfold receive, deref.
    destruct (heap w !! a0) as [n0|] eqn:Hn0; simpl; [|done].
    destruct (VerifyAndApplyClockUpdate n0 update) as [[applied n'] printed] eqn:Hv.
    simpl. intros Hrun. apply IH in Hrun as (Hall & Hself & Hout). simpl in *.
    assert (n' = received n0 update) as -> by (unfold received; by rewrite Hv).
    split; [|split].
    + intros p. destruct (decide (p = a0)) as [->|Hp].
      * right. rewrite Hn0. simpl.
        destruct (Hall a0) as [H|H]; rewrite H, lookup_insert_eq; simpl; [done|].
        by rewrite received_twice.
      * destruct (Hall p) as [H|H]; rewrite H, lookup_insert_ne by done; auto.
    + by rewrite Hself, lookup_insert_ne.
    + etrans; [|exact Hout]. by apply prefix_app_r.
Qed.





(** X15: what propagation preserves. When [PropagateClockUpdate] returns,
    the same nodes exist as before and each has kept its ID, keys, flags
    and neighbour list; its clock reads as before under every ID other than
    the update's; Byzantine nodes and the sender are exactly as they were;
    and the lines printed before are still there, with new ones only
    appended. *)
Theorem PropagateClockUpdate_preserves (n : positive) (update : ClockUpdate)
    (s : System) (w w' : World) :
  PropagateClockUpdate n update s w = Returns w' →
  dom (heap w') = dom (heap w) ∧
  heap w' !! n = heap w !! n ∧
  stdout w `prefix_of` stdout w' ∧
  ∀ p m, heap w !! p = Some m →
    ∃ m', heap w' !! p = Some m' ∧
          ID m' = ID m ∧ PrivateKey m' = PrivateKey m ∧ PublicKey m' = PublicKey m ∧
          IsByzantine m' = IsByzantine m ∧ IsIsolated m' = IsIsolated m ∧
          Neighbors m' = Neighbors m ∧
          (IsByzantine m = true → m' = m) ∧
          (∀ k, k ≠ NodeID update →
                VC.GetTimestamp (Node_VectorClock m') k
                = VC.GetTimestamp (Node_VectorClock m) k).
Proof.
  unfold PropagateClockUpdate, deref.
  destruct (heap w !! n) as [node|] eqn:Hn; simpl; [|done].
  intros (Hall & Hself & Hout)%Propagate_loop_inv.
  split; [|split; [by rewrite Hself|split; [done|]]].
  - apply set_eq. intros p. rewrite !elem_of_dom.
    destruct (Hall p) as [H|H]; rewrite H; [done|].
    rewrite fmap_is_Some. done.
  - intros p m Hm. destruct (Hall p) as [H|H]; rewrite H, Hm; simpl.
    + exists m. repeat split; done.
    + exists (received m update). split; [done|].
      destruct (IsByzantine m) eqn:Hb.
      * rewrite received_byzantine by done. by rewrite Hb.
      * rewrite received_correct by done. simpl. repeat split; try done.
        intros k Hk. by apply GetTimestamp_Update_ne.
Qed.

Lemma PropagateClockUpdate_preserves_witness :
  ∃ w', PropagateClockUpdate (nodeA toy_cluster) toy_update (system toy_cluster)
          (world toy_cluster) = Returns w' ∧
        dom (heap w') = dom (heap (world toy_cluster)).
Proof.
  destruct (PropagateClockUpdate (nodeA toy_cluster) toy_update (system toy_cluster)
              (world toy_cluster)) as [w'| |] eqn:Hrun;
    [|vm_compute in Hrun; discriminate Hrun..].
  exists w'. split; [reflexivity|].
  exact (proj1 (PropagateClockUpdate_preserves _ _ _ _ _ Hrun)).
Defined.

Lemma Propagate_loop_nobody (update : ClockUpdate) (system : System) (self : positive)
    (neighbors : list string) (w : World) :
  (∀ nb, nb ∈ neighbors →
         Sys.IsPartitioned system nb = true ∨ Nodes system !! nb = None) →
  Propagate_loop self neighbors update system w = Returns w.
Proof.
  induction neighbors as [|nb rest IH]; intros H; simpl; [done|].
  assert (Propagate_loop self rest update system w = Returns w) as Hrest.
  { apply IH. intros nb' Hin. apply H. by right. }
  destruct (H nb ltac:(left)) as [-> | Hnone]; [done|].
  rewrite Hnone. by destruct (Sys.IsPartitioned system nb).
Qed.

(** X16: propagation to nobody. When every neighbour of the sender is
    flagged in the partition table or unknown to the registry (in
    particular when the sender has no neighbours), [PropagateClockUpdate]
    returns with the world exactly as it was: no clock changes and nothing
    is printed, and the call reports nothing about the skipped neighbours. *)
Theorem PropagateClockUpdate_to_nobody (n : positive) (update : ClockUpdate)
    (s : System) (w : World) (node : Node) :
  heap w !! n = Some node →
  (∀ nb, nb ∈ Neighbors node →
         Sys.IsPartitioned s nb = true ∨ Nodes s !! nb = None) →
  PropagateClockUpdate n update s w = Returns w.
Proof.
  intros Hn H. unfold PropagateClockUpdate, deref. rewrite Hn. simpl.
  by apply Propagate_loop_nobody.
Qed.

Lemma PropagateClockUpdate_to_nobody_witness :
  heap (world toy_cluster) !! nodeE toy_cluster
  = Some (scenario_node Toy.keys "E" false true ["D"]) ∧
  PropagateClockUpdate (nodeE toy_cluster) (mkClockUpdate "E" 7 "") sender_flagged
    (world toy_cluster) = Returns (world toy_cluster).
Proof.
  split; [reflexivity|].
  apply (PropagateClockUpdate_to_nobody (nodeE toy_cluster) (mkClockUpdate "E" 7 "")
           sender_flagged (world toy_cluster) _ eq_refl).
  intros nb Hin. left. simpl in Hin.
  apply elem_of_cons in Hin as [->|Hin]; [reflexivity|by apply elem_of_nil in Hin].
Defined.

(** ** The registry and the heap *)

Lemma registry_ok_heap (s : System) (w w' : World) :
  (∀ p m, heap w !! p = Some m → ∃ m', heap w' !! p = Some m' ∧ ID m' = ID m) →
  registry_ok s w → registry_ok s w'.
Proof.
  intros Hheap Hok id p Hreg. destruct (Hok _ _ Hreg) as (m & Hm & Hid).
  destruct (Hheap _ _ Hm) as (m' & Hm' & Hid'). exists m'. split; [done|]. congruence.
Qed.

(** X17: the registry stays consistent. A new system is consistent with
    every heap. From a consistent state, [AddNode] of an existing node,
    [SetLeader], [SetPartition], [NewNode] and a returning
    [PropagateClockUpdate] all lead to a consistent state again: every
    registered pointer is allocated and points to a node with the ID it is
    registered under. *)
Theorem registry_ok_preserved (s : System) (w : World) :
  registry_ok Sys.NewSystem w ∧
  (registry_ok s w →
   (∀ node s', Sys.AddNode s node w = Returns s' → registry_ok s' w) ∧
   (∀ id b, registry_ok (Sys.SetPartition s id b) w) ∧
   (∀ leaderID, registry_ok (Sys.SetLeader s leaderID) w) ∧
   (∀ entropy genkey rnd id isByzantine isIsolated,
      registry_ok s (NewNode entropy genkey rnd id isByzantine isIsolated w).2) ∧
   (∀ n update w', PropagateClockUpdate n update s w = Returns w' → registry_ok s w')).
Proof.
  split.
  { intros id p Hreg. unfold Sys.NewSystem in Hreg; simpl in Hreg.
    by rewrite lookup_empty in Hreg. }
  intros Hok. split; [|split; [done|split; [done|split]]].
  - intros node s'. unfold Sys.AddNode, deref.
    destruct (heap w !! node) as [m|] eqn:Hm; simpl; [|done].
    intros [= <-] id p Hreg. simpl in Hreg.
    apply lookup_insert_Some in Hreg as [[<- <-]|[_ Hreg]]; [by exists m|by apply Hok].
  - intros entropy genkey rnd id isByzantine isIsolated.
    unfold NewNode, GenerateKeyPair. destruct (genkey rnd) as [key|err]; [|done].
    simpl. apply (registry_ok_heap s w); [|done].
    intros q m Hq. exists m. split; [|done]. simpl.
    rewrite lookup_insert_ne; [done|]. intros <-.
    pose proof (is_fresh (dom (heap w))) as Hfresh.
    apply not_elem_of_dom in Hfresh. congruence.
  - intros n update w'. unfold PropagateClockUpdate, deref.
    destruct (heap w !! n) as [node|]; simpl; [|done].
    intros (Hall & _ & _)%Propagate_loop_inv.
    apply (registry_ok_heap s w); [|done].
    intros p m Hm. destruct (Hall p) as [H|H]; rewrite H, Hm; simpl.
    + by exists m.
    + exists (received m update). split; [done|].
      destruct (IsByzantine m) eqn:Hb.
      * by rewrite received_byzantine.
      * by rewrite received_correct.
Qed.

Lemma registry_ok_preserved_witness :
  registry_ok twin_system twin_world ∧
  registry_ok (Sys.SetPartition twin_system "Z" true) twin_world.
Proof.
  assert (registry_ok twin_system twin_world) as Hok.
  { intros id p Hreg. unfold twin_system in Hreg; simpl in Hreg.
    apply lookup_singleton_Some in Hreg as [<- <-]. by eexists. }
  split; [exact Hok|].
  exact (proj1 (proj2 (proj2 (registry_ok_preserved twin_system twin_world) Hok)) "Z" true).
Defined.

(** ** What propagation does not read, and repeating it *)

Lemma VerifyAndApplyClockUpdate_forget (n : Node) (update : ClockUpdate) :
  VerifyAndApplyClockUpdate (forget_isolated n) update
  = ((VerifyAndApplyClockUpdate n update).1.1,
     forget_isolated (VerifyAndApplyClockUpdate n update).1.2,
     (VerifyAndApplyClockUpdate n update).2).
Proof.
  unfold VerifyAndApplyClockUpdate, forget_isolated. simpl.
  destruct (IsByzantine n) eqn:Hb; simpl; by rewrite ?Hb.
Qed.

Lemma Propagate_loop_forget (update : ClockUpdate) (system : System) (self : positive)
    (neighbors : list string) (w : World) :
  Propagate_loop self neighbors update system (forget_isolated_world w)
  = outcome_map forget_isolated_world (Propagate_loop self neighbors update system w).
Proof.
  revert w. induction neighbors as [|nb rest IH]; intros w; simpl; [done|].
  destruct (Sys.IsPartitioned system nb); [apply IH|].
  destruct (Nodes system !! nb) as [a0|]; [|apply IH].
  destruct (decide (a0 = self)); [done|].
  unfold receive, deref. simpl. rewrite lookup_fmap.
  destruct (heap w !! a0) as [n0|]; simpl; [|done].
  rewrite VerifyAndApplyClockUpdate_forget.
  destruct (VerifyAndApplyClockUpdate n0 update) as [[applied n'] printed]. simpl.
  rewrite <- IH. f_equal. unfold forget_isolated_world. simpl. f_equal.
  by rewrite fmap_insert.
Qed.

(** X18: the [IsIsolated] flag of a node is never read. Running
    [PropagateClockUpdate] in a world whose [IsIsolated] flags have all been
    reset ends the same way, delivers to the same nodes and prints the same
    lines as running it in the original world: the flag given to [NewNode]
    has no effect on who receives an update. *)
Theorem PropagateClockUpdate_ignores_IsIsolated (n : positive) (update : ClockUpdate)
    (s : System) (w : World) :
  PropagateClockUpdate n update s (forget_isolated_world w)
  = outcome_map forget_isolated_world (PropagateClockUpdate n update s w).
Proof.
  unfold PropagateClockUpdate, deref. simpl. rewrite lookup_fmap.
  destruct (heap w !! n) as [node|]; simpl; [|done].
  apply Propagate_loop_forget.
Qed.

(** X19: propagating the same update a second time changes no node. Under
    the conditions for the call to return (the sender is not among the
    neighbours it delivers to, and these exist), the second call returns as
    well and leaves every node object as the first call left it. *)
Theorem PropagateClockUpdate_twice (n : positive) (update : ClockUpdate)
    (s : System) (w : World) (node : Node) :
  heap w !! n = Some node →
  n ∉ delivered_to s (Neighbors node) →
  (∀ a, a ∈ delivered_to s (Neighbors node) → is_Some (heap w !! a)) →
  ∃ w1 w2, PropagateClockUpdate n update s w = Returns w1 ∧
           PropagateClockUpdate n update s w1 = Returns w2 ∧
           heap w2 = heap w1.
Proof.
  intros Hn Hself Halloc. unfold PropagateClockUpdate, deref. rewrite Hn. simpl.
  destruct (Propagate_loop_Returns update s n (Neighbors node) w Hself Halloc)
    as (w1 & Hrun1 & Hin1 & Hout1).
  assert (heap w1 !! n = Some node) as Hn1 by (by rewrite Hout1).
  destruct (Propagate_loop_Returns update s n (Neighbors node) w1 Hself)
    as (w2 & Hrun2 & Hin2 & Hout2).
  { intros a Ha. rewrite (Hin1 a Ha). apply fmap_is_Some. by apply Halloc. }
  exists w1, w2. rewrite Hrun1, Hn1. simpl. split; [done|]. split; [done|].
  apply map_eq. intros a.
  destruct (decide (a ∈ delivered_to s (Neighbors node))) as [Ha|Ha].
  - rewrite (Hin2 a Ha), (Hin1 a Ha).
    destruct (heap w !! a) as [m|]; simpl; [|done]. by rewrite received_twice.
  - by apply Hout2.
Qed.

Lemma PropagateClockUpdate_twice_witness :
  heap (world toy_cluster) !! nodeA toy_cluster
  = Some (scenario_node Toy.keys "A" false false ["B"; "C"; "D"]) ∧
  ∃ w1 w2,
    PropagateClockUpdate (nodeA toy_cluster) toy_update (system toy_cluster)
      (world toy_cluster) = Returns w1 ∧
    PropagateClockUpdate (nodeA toy_cluster) toy_update (system toy_cluster) w1
    = Returns w2 ∧
    heap w2 = heap w1.
Proof.
  split; [reflexivity|].
  apply (PropagateClockUpdate_twice (nodeA toy_cluster) toy_update (system toy_cluster)
           (world toy_cluster) _ eq_refl).
  - change (1%positive ∉ [2; 3; 4]%positive).
    rewrite !not_elem_of_cons. repeat split; [done..|apply not_elem_of_nil].
  - change (∀ a, a ∈ [2; 3; 4]%positive → is_Some (heap (world toy_cluster) !! a)).
    intros a Ha.
    repeat (apply elem_of_cons in Ha as [->|Ha]; [by eexists|]).
    by apply elem_of_nil in Ha.
Defined.

(** ** The propagation test *)

Section TestFacts.

Variable entropy : Type.
Variable sha256_Sum256 : string → list Z.
Variable ecdsa_Sign : entropy → ecdsa_PrivateKey → list Z → result (Z * Z).
Variable ecdsa_GenerateKey : entropy → result ecdsa_PrivateKey.

(** X20: [TestClockPropagation] passes whenever both key generations
    succeed, whatever the keys, the time, and the outcome of signing; it
    panics on a nil node when a key generation fails. *)
Theorem TestClockPropagation_passes (rndA rndB : entropy) (now : Z) (rnd : entropy) :
  TestClockPropagation entropy sha256_Sum256 ecdsa_Sign ecdsa_GenerateKey rndA rndB now rnd
  = match ecdsa_GenerateKey rndA, ecdsa_GenerateKey rndB with
    | Ok _, Ok _ => Returns true
    | _, _ => Panics
    end.
Proof.
  unfold TestClockPropagation, create, NewNode, GenerateKeyPair.
  destruct (ecdsa_GenerateKey rndA) as [keyA|errA]; [|done].
  destruct (ecdsa_GenerateKey rndB) as [keyB|errB]; [|done].
  vm_compute.
  match goal with
  | |- context [ecdsa_Sign ?a ?b ?c] => destruct (ecdsa_Sign a b c) as [[r s0]|err]
  end;
    vm_compute;
    match goal with
    | |- Returns (if (if ?X then _ else _) then _ else _) = _ =>
        change X with (now =? now)
    end;
    by rewrite Z.eqb_refl.
Qed.

End TestFacts.

(** ** Concurrent clocks over the same keys *)

(** On [{A: 1, B: 5}] and [{A: 2, B: 3}], which hold the same keys and are
    concurrent, [Compare] returns [-1] when it visits A first and [1] when
    it visits B first: a "less" result does not show that the receiver is
    dominated. *)
Lemma Compare_concurrent_same_keys :
  dom (Timestamps cross_1) = dom (Timestamps cross_2) ∧
  Std.compare cross_1 cross_2 = CONCURRENT ∧
  VC.Compare cross_1 cross_2 (-1) ∧
  VC.Compare cross_1 cross_2 1.
Proof.
  assert ("A" ∈ dom (Timestamps cross_1) ∧ "B" ∈ dom (Timestamps cross_1)) as [HA HB].
  { unfold cross_1, clock_of; simpl. rewrite !dom_insert_L. set_solver. }
  split; [|split; [by vm_compute|split]].
  - unfold cross_1, cross_2, clock_of; simpl. rewrite !dom_insert_L. set_solver.
  - apply Compare_cases_complete. left. split; [done|]. exists "A". split; [done|].
    by vm_compute.
  - apply Compare_cases_complete. right; left. split; [done|]. exists "B".
    split; [done|]. by vm_compute.
Qed.
